(** * duniter-bma: network configuration resolver and listener lifecycle

    A shallow embedding of [index.js] (configuration loading, the network
    (re)configuration waterfall, the UPnP probe wrapper) and of
    [lib/network.js] (interface inventory, best local address selection,
    random port, UPnP probe, HTTP listeners), followed by the properties
    stated about them.

    Conventions.
    - A JavaScript value stored in the configuration object is a [jsval];
      [truthy] is JavaScript's ToBoolean on it.  A field is called absent
      when it is falsy, which is the test the source applies everywhere
      ([!conf.ipv4], [conf.port || DEFAULT], ...).
    - The configuration object [conf] is a finite map from property names to
      values; reading a missing property gives [undefined].  The functions
      of the source mutate [conf] in place; here they return the new map.
    - The operating system, the gateway, the random generator and the
      operator at the prompt are explicit inputs.  The list of network
      interfaces is the same throughout one resolution.
    - Calls to the logger are left out.
    - The constants of [lib/constants.js], absent from the sources, are
      parameters. *)

From Stdlib Require Import ZArith List String Ascii Bool Lia.
From stdpp Require Import gmap strings list sorting.

Open Scope string_scope.
Open Scope list_scope.
Open Scope Z_scope.

(** ** JavaScript values *)

Module JS.

Inductive jsval : Type :=
| JUndefined
| JNull
| JBool (b : bool)
| JNum (n : Z)
| JNaN
| JStr (s : string).

(** ToBoolean. *)
Definition truthy (v : jsval) : bool :=
  match v with
  | JUndefined | JNull | JNaN => false
  | JBool b => b
  | JNum n => negb (n =? 0)
  | JStr s => negb (String.eqb s "")
  end.

(** [a || b] *)
Definition js_or (a b : jsval) : jsval := if truthy a then a else b.

(** [v === true] *)
Definition is_true (v : jsval) : bool :=
  match v with JBool true => true | _ => false end.

(** [v === undefined || v === null] *)
Definition is_nullish (v : jsval) : bool :=
  match v with JUndefined | JNull => true | _ => false end.

(** [v === 0] *)
Definition is_zero (v : jsval) : bool :=
  match v with JNum 0 => true | _ => false end.

(** Objects used as records of optional properties. *)
Definition prop (k : string) (o : gmap string jsval) : jsval :=
  default JUndefined (o !! k).

(** [_.extend(dst, src)]: every own property of [src] is copied onto [dst],
    whatever its value; the other properties of [dst] stay. *)
Definition extend (dst src : gmap string jsval) : gmap string jsval := src ∪ dst.

(** Outcome of a call that may throw (or of a promise that may reject). *)
Inductive result (A : Type) : Type :=
| Ok (a : A)
| Throw (e : string).
Arguments Ok {A} a.
Arguments Throw {A} e.

#[global] Instance result_ret : MRet result := fun A a => Ok a.

#[global] Instance result_bind : MBind result := fun A B k r =>
  match r with
  | Ok a => k a
  | Throw e => Throw e
  end.

End JS.
Import JS.

(** ** Anchored regular expressions of the source

    Every pattern matched against an interface name or an address in
    [lib/network.js] is a start anchor followed by literal characters and
    [\d] classes.  Such a pattern is kept as its source text and interpreted
    by [regexp_test]. *)

Module Regexp.

Inductive atom : Type :=
| Lit (c : ascii)
| Digit.

Definition is_digit (c : ascii) : bool :=
  let n := nat_of_ascii c in (48 <=? n)%nat && (n <=? 57)%nat.

Definition atom_ok (a : atom) (c : ascii) : bool :=
  match a with
  | Lit d => Ascii.eqb c d
  | Digit => is_digit c
  end.

(** Atoms of a pattern body: [\d] is the digit class, anything else stands
    for itself. *)
Fixpoint atoms (body : string) : list atom :=
  match body with
  | EmptyString => []
  | String "\" (String "d" rest) => Digit :: atoms rest
  | String c rest => Lit c :: atoms rest
  end.

Fixpoint match_here (p : list atom) (s : string) : bool :=
  match p with
  | [] => true
  | a :: p' =>
      match s with
      | EmptyString => false
      | String c s' => atom_ok a c && match_here p' s'
      end
  end.

(** [s.match(/^body/)] as a boolean; a pattern without the anchor is not
    used by the modelled functions. *)
Definition regexp_test (pattern : string) (s : string) : bool :=
  match pattern with
  | String "^" body => match_here (atoms body) s
  | _ => false
  end.

End Regexp.
Import Regexp.

(** ** lib/constants.js

    The constants module is not part of the sources at hand; the three
    constants used by the modelled code are parameters of the development. *)

Record Constants : Type := {
  PORT_START : Z;
  DEFAULT_PORT : Z;
  (** [s.match(constants.IPV4_REGEXP)] as a boolean *)
  IPV4_REGEXP : string -> bool
}.

(** ** lib/network.js: interface inventory *)

Module Network.

(** One address of [os.networkInterfaces()]. *)
Record addr_info : Type := {
  address : string;
  family : string;
  internal : bool;
  scopeid : jsval
}.

(** [os.networkInterfaces()]: an object from interface name to addresses,
    kept in key enumeration order. *)
Definition os_interfaces : Type := list (string * list addr_info).

Record net_interface : Type := {
  name : string;
  addresses : list addr_info
}.

Definition listInterfaces (os : os_interfaces) : list net_interface :=
  map (fun kv => {| name := fst kv; addresses := snd kv |}) os.

(** Entries collected by the two nested loops of [getBestLocal]. *)
Record entry : Type := {
  entry_name : string;
  entry_value : string
}.

Definition family_ok (fam : option string) (a : addr_info) : bool :=
  match fam with
  | None => true
  | Some f => String.eqb (family a) f
  end.

Definition collect (fam : option string) (os : os_interfaces) : list entry :=
  flat_map (fun kv =>
    map (fun a => {| entry_name := fst kv; entry_value := address a |})
        (filter (fun a => family_ok fam a = true) (snd kv))) os.

Definition interfacePriorityRegCatcher : list string :=
  [ "^tun\d";
    "^enp\ds\d";
    "^enp\ds\df\d";
    "^eth\d";
    "^Ethernet";
    "^wlp\ds\d";
    "^wlan\d";
    "^Wi-Fi";
    "^lo";
    "^Loopback";
    "^None" ].

(** The iteratee of [_.sortBy]: index of the first pattern the name matches,
    the number of patterns when none does. *)
Fixpoint first_match (pats : list string) (i : nat) (nm : string) : nat :=
  match pats with
  | [] => i
  | p :: rest => if regexp_test p nm then i else first_match rest (S i) nm
  end.

Definition priority (e : entry) : nat :=
  first_match interfacePriorityRegCatcher 0 (entry_name e).

(** [_.sortBy(list, criteria)]: the elements are paired with their criteria
    and their index, sorted with the comparator "smaller criteria first,
    then smaller index", and unpaired.  The comparator is a total order on
    the pairs, so the outcome does not depend on the sorting algorithm. *)
Definition sort_le (x y : nat * nat) : bool :=
  (fst x <? fst y)%nat || ((fst x =? fst y)%nat && (snd x <=? snd y)%nat).

Fixpoint sort_insert {A} (x : nat * nat * A) (l : list (nat * nat * A))
  : list (nat * nat * A) :=
  match l with
  | [] => [x]
  | y :: l' => if sort_le (fst x) (fst y) then x :: y :: l'
               else y :: sort_insert x l'
  end.

Fixpoint decorate {A} (criteria : A -> nat) (i : nat) (l : list A)
  : list (nat * nat * A) :=
  match l with
  | [] => []
  | x :: l' => (criteria x, i, x) :: decorate criteria (S i) l'
  end.

Definition sortBy {A} (criteria : A -> nat) (l : list A) : list A :=
  map snd (fold_right sort_insert [] (decorate criteria 0%nat l)).

(** [(best && best.value) || ""] *)
Definition getBestLocal (fam : option string) (os : os_interfaces) : string :=
  match sortBy priority (collect fam os) with
  | [] => ""
  | best :: _ => entry_value best
  end.

Definition getBestLocalIPv4 (os : os_interfaces) : string :=
  getBestLocal (Some "IPv4") os.

(** [_(addresses).where({family: 'IPv6', scopeid: 0, internal: false})] *)
Definition where_global_v6 (a : addr_info) : bool :=
  String.eqb (family a) "IPv6" && is_zero (scopeid a) && negb (internal a).

Definition not_local_v6 (a : addr_info) : bool :=
  negb (regexp_test "^fe80" (address a)) && negb (regexp_test "^::1" (address a)).

Fixpoint getBestLocalIPv6_loop (l : list net_interface) : jsval :=
  match l with
  | [] => JNull
  | netInterface :: rest =>
      let filtered := filter (fun a => where_global_v6 a = true) (addresses netInterface) in
      let filtered2 := filter (fun a => not_local_v6 a = true) filtered in
      match filtered2 with
      | a :: _ => JStr (address a)
      | [] => getBestLocalIPv6_loop rest
      end
  end.

Definition getBestLocalIPv6 (os : os_interfaces) : jsval :=
  getBestLocalIPv6_loop (listInterfaces os).

(** ** lib/network.js: random port

    [Math.random()] returns a binary64 number in the interval from 0
    (included) to 1 (excluded).  Every such number is [mant / 2^expo] with
    [0 <= mant < 2^53] and [53 <= expo <= 1074], and is kept in that form. *)

Record unit_double : Type := {
  mant : Z;
  expo : Z
}.

Definition unit_double_ok (r : unit_double) : Prop :=
  0 <= mant r < 2 ^ 53 /\ 53 <= expo r <= 1074.

(** [m / 2^s] rounded to the nearest integer, ties to even. *)
Definition round_half_even (m s : Z) : Z :=
  let q := m / 2 ^ s in
  let r := m mod 2 ^ s in
  let half := 2 ^ (s - 1) in
  if r <? half then q
  else if half <? r then q + 1
  else if Z.even q then q else q + 1.

(** Binary64 product of [mant / 2^expo] by a natural number [n < 2^53]: the
    exact product [mant * n / 2^expo] rounded to 53 significant bits.  The
    result is [mul_mant mant n / 2^expo]. *)
Definition mul_mant (m n : Z) : Z :=
  let p := m * n in
  if p <? 2 ^ 53 then p
  else
    let s := Z.log2 p - 52 in
    round_half_even p s * 2 ^ s.

(** Integer part (rounding toward zero) of the binary64 product of [r] by
    the integer [n]. *)
Definition trunc_product (r : unit_double) (n : Z) : Z :=
  Z.sgn n * (mul_mant (mant r) (Z.abs n) / 2 ^ expo r).

(** ToInt32, applied twice by [~~]. *)
Definition to_int32 (z : Z) : Z :=
  let w := z mod 2 ^ 32 in
  if w <? 2 ^ 31 then w else w - 2 ^ 32.

Definition getRandomPort (K : Constants) (random : unit_double)
  (conf : gmap string jsval) : jsval :=
  if truthy (prop "remoteport" conf) then prop "remoteport" conf
  else JNum (to_int32 (trunc_product random (65536 - PORT_START K)) + PORT_START K).

(** ** lib/network.js: UPnP probe *)

(** What the gateway client ([nnupnp]) answers to the three requests of the
    probe. *)
Record Gateway : Type := {
  externalIp : result jsval;
  portMapping : jsval -> jsval -> Z -> result unit; (* public, private, ttl *)
  findGateway : result jsval                        (* the local IP *)
}.

(** [v.match(constants.IPV4_REGEXP)]: only a string has a [match] method. *)
Definition match_ipv4 (K : Constants) (v : jsval) : result bool :=
  match v with
  | JStr s => Ok (IPV4_REGEXP K s)
  | _ => Throw "TypeError"
  end.

Definition upnpConf (K : Constants) (noupnp : jsval) (random : unit_double)
  (client : Gateway) : result (gmap string jsval) :=
  let conf : gmap string jsval := ∅ in
  let privatePort := getRandomPort K random conf in
  let publicPort := privatePort in
  if truthy noupnp then Throw "No UPnP"
  else
    publicIP ← externalIp client;
    _ ← portMapping client publicPort privatePort 120;
    privateIP ← findGateway client;
    publicOk ← match_ipv4 K publicIP;
    let conf := <["remoteipv4" := if (publicOk : bool) then publicIP else JNull]> conf in
    let conf := <["remoteport" := publicPort]> conf in
    let conf := <["port" := privatePort]> conf in
    privateOk ← match_ipv4 K privateIP;
    let conf := <["ipv4" := if (privateOk : bool) then privateIP else JNull]> conf in
    Ok conf.

(** ** lib/network.js: HTTP listeners

    [createServersAndListen] keeps three arrays of the same length,
    [interfaces], [httpServers] and [listenings]; they are zipped here into
    one list of [server] records.  Each HTTP server owns a registry
    [sockets] from socket id to socket.  Calls to the logger are left out;
    the calls made on the HTTP servers and on the sockets are recorded as a
    list of [event]s. *)

Inductive socket_state : Type :=
| Open
| Destroyed.

#[global] Instance socket_state_eq_dec : EqDecision socket_state.
Proof. solve_decision. Defined.

Record server : Type := {
  ip : string;                        (* interfaces[i].ip *)
  port : jsval;                       (* interfaces[i].port *)
  listening : bool;                   (* listenings[i] *)
  sockets : gmap nat socket_state;    (* the registry of httpServers[i] *)
  nextSocketId : nat;
  errorPropagates : bool              (* httpServer.errorPropagates is assigned *)
}.

Inductive event : Type :=
| EListen (i : nat) (port : jsval) (ip : string)  (* httpServer.listen(port, ip, cb) *)
| EDestroy (i : nat) (socketId : nat)             (* sockets[socketId].destroy() *)
| EClose (i : nat).                               (* httpServer.close(cb) *)

Record api : Type := {
  servers : list server;
  ddos_whitelist : list string
}.

Definition new_server (iface : string * jsval) : server :=
  {| ip := fst iface; port := snd iface; listening := false;
     sockets := ∅; nextSocketId := 0%nat; errorPropagates := false |}.

Definition createServersAndListen (interfaces : list (string * jsval)) : result api :=
  let whitelist := map fst interfaces in
  let whitelist :=
    if existsb (String.eqb "127.0.0.1") whitelist then whitelist
    else (whitelist ++ ["127.0.0.1"])%list in
  let httpServers := map new_server interfaces in
  if (length httpServers =? 0)%nat
  then Throw "Duniter does not have any interface to listen to."
  else Ok {| servers := httpServers; ddos_whitelist := whitelist |}.

(** The ['connection'] handler of an HTTP server. *)
Definition on_connection (s : server) : server :=
  {| ip := ip s; port := port s; listening := listening s;
     sockets := <[nextSocketId s := Open]> (sockets s);
     nextSocketId := S (nextSocketId s);
     errorPropagates := errorPropagates s |}.

(** The ['close'] handler of the socket registered under [socketId]. *)
Definition on_socket_close (socketId : nat) (s : server) : server :=
  {| ip := ip s; port := port s; listening := listening s;
     sockets := delete socketId (sockets s);
     nextSocketId := nextSocketId s;
     errorPropagates := errorPropagates s |}.

(** [_.keys(sockets)]: integer-like keys come in ascending order. *)
Definition socket_keys (s : server) : list nat :=
  merge_sort Nat.le (map fst (map_to_list (sockets s))).

(** [closeSockets()]: [destroy()] on every registered socket.  A destroyed
    socket stays in the registry until its ['close'] event is delivered. *)
Definition closeSockets (s : server) : server :=
  {| ip := ip s; port := port s; listening := listening s;
     sockets := (fun _ => Destroyed) <$> sockets s;
     nextSocketId := nextSocketId s;
     errorPropagates := errorPropagates s |}.

Definition set_listening (b : bool) (s : server) : server :=
  {| ip := ip s; port := port s; listening := b;
     sockets := sockets s; nextSocketId := nextSocketId s;
     errorPropagates := errorPropagates s |}.

(** The loop of [closeConnections] from index [i] on.  Calling
    [httpServer.errorPropagates] while it is unassigned throws inside the
    promise, which rejects and ends the loop. *)
Fixpoint closeConnections_from (i : nat) (l : list server)
  : list server * list event * result unit :=
  match l with
  | [] => ([], [], Ok tt)
  | s :: rest =>
      if listening s then
        let s := set_listening false s in
        if errorPropagates s then
          let destroyed := map (EDestroy i) (socket_keys s) in
          let s := closeSockets s in
          let '(rest', evs, r) := closeConnections_from (S i) rest in
          (s :: rest', (destroyed ++ EClose i :: evs)%list, r)
        else (s :: rest, [], Throw "TypeError")
      else
        let '(rest', evs, r) := closeConnections_from (S i) rest in
        (s :: rest', evs, r)
  end.

Definition closeConnections (l : list server) : list server * list event * result unit :=
  closeConnections_from 0 l.

(** The loop of [openConnections] from index [i] on; [bind_ok i] tells
    whether the operating system accepts the [listen] of server [i].  A
    refused [listen] rejects the promise, which is caught and logged. *)
Fixpoint openConnections_from (bind_ok : nat -> bool) (i : nat) (l : list server)
  : list server * list event :=
  match l with
  | [] => ([], [])
  | s :: rest =>
      let '(rest', evs) := openConnections_from bind_ok (S i) rest in
      if listening s then (s :: rest', evs)
      else
        let s' := {| ip := ip s; port := port s; listening := bind_ok i;
                     sockets := sockets s; nextSocketId := nextSocketId s;
                     errorPropagates := true |} in
        (s' :: rest', EListen i (port s) (ip s) :: evs)
  end.

Definition openConnections (bind_ok : nat -> bool) (l : list server)
  : list server * list event :=
  openConnections_from bind_ok 0 l.

End Network.

(** ** index.js: configuration loading and network (re)configuration *)

Module Bma.
Import Network.

(** The prompts of the interactive mode.  The operator is a function from
    the prompt to the value entered or picked; a confirmation is taken as
    its truth value.  Which choices a list prompt offers and the re-asking
    of an input refused by its validator belong to the prompt library and
    are not modelled: any answer is allowed. *)
Inductive question : Type :=
| QKeepUPnP       (* "UPnP is available: duniter will be bound: ... Keep this configuration?" *)
| QPublicServer   (* "UPnP is *not* available: is this a public server (like a VPS)?" *)
| QIPv4           (* list "IPv4 interface" *)
| QIPv6           (* list "IPv6 interface" *)
| QPort           (* input "Port" *)
| QRemoteIPv4     (* list "Remote IPv4" *)
| QRemoteIPv4New  (* input "Remote IPv4", after the choice "Enter new one" *)
| QRemotePort     (* input "Remote port" *)
| QHasDNS         (* "Does this server has a DNS name?" *)
| QDNSName        (* input "DNS name:" *)
| QUseUPnP.       (* "UPnP is available: use automatic port mapping? (easier)" *)

(** Everything outside the configuration that a resolution depends on. *)
Record Env : Type := {
  os : os_interfaces;          (* os.networkInterfaces() *)
  client : Gateway;            (* the gateway's answers to the probe *)
  probe_random : unit_double;  (* Math.random() drawn by the probe *)
  port_random : unit_double;   (* Math.random() drawn by local port selection *)
  operator : question -> jsval
}.

(** A step of [async.waterfall]: it works on the shared configuration
    object and receives what the previous step passed to its callback. *)
Definition wstate : Type := gmap string jsval * gmap string jsval.
Definition operation : Type := wstate -> wstate.

(** A step that takes nothing from the previous one and passes nothing on. *)
Definition plain (f : gmap string jsval -> gmap string jsval) : operation :=
  fun st => (f (fst st), ∅).

Definition waterfall (ops : list operation) (conf : gmap string jsval)
  : gmap string jsval :=
  fst (fold_left (fun st op => op st) ops (conf, ∅)).

Definition choose {A} (E : Env) (q : question) (ifOK ifNotOK : A) : A :=
  if truthy (operator E q) then ifOK else ifNotOK.

Definition simpleValue (E : Env) (q : question) (property : string)
  (conf : gmap string jsval) : gmap string jsval :=
  <[property := operator E q]> conf.

Definition simpleInteger (E : Env) (q : question) (property : string)
  (conf : gmap string jsval) : gmap string jsval :=
  simpleValue E q property conf.

Definition getLocalNetworkOperations (K : Constants) (E : Env) (autoconf : bool)
  : list operation :=
  [ plain (fun conf =>
      if autoconf then <["ipv4" := JStr (getBestLocalIPv4 (os E))]> conf
      else <["ipv4" := operator E QIPv4]> conf);
    plain (fun conf =>
      let conf :=
        if autoconf || negb (truthy (prop "ipv6" conf))
        then <["ipv6" := getBestLocalIPv6 (os E)]>
               (<["remoteipv6" := getBestLocalIPv6 (os E)]> conf)
        else conf in
      if autoconf then conf
      else <["ipv6" := operator E QIPv6]>
             (<["remoteipv6" := operator E QIPv6]> conf));
    plain (fun conf =>
      if autoconf then <["port" := getRandomPort K (port_random E) conf]> conf
      else simpleInteger E QPort "port" conf) ].

Definition is_new (v : jsval) : bool :=
  match v with JStr s => String.eqb s "new" | _ => false end.

Definition getRemoteNetworkOperations (E : Env) : list operation :=
  [ (fun st =>
      let conf := fst st in
      if negb (truthy (prop "ipv4" conf))
      then (<["remoteipv4" := JNull]> conf, ∅)
      else
        let picked := operator E QRemoteIPv4 in
        if is_new picked
        then (conf, {["remoteipv4" := operator E QRemoteIPv4New]})
        else (conf, {["remoteipv4" := picked]}));
    (fun st =>
      let answers := snd st in
      let conf := <["remoteipv4" := prop "remoteipv4" answers]> (fst st) in
      if truthy (prop "remoteipv4" conf) || truthy (prop "remotehost" conf)
      then (simpleInteger E QRemotePort "remoteport" conf, ∅)
      else if truthy (prop "remoteipv6" conf)
      then (<["remoteport" := prop "port" conf]> conf, ∅)
      else (conf, ∅)) ].

Definition getHostnameOperations (E : Env) (autoconf : bool) : list operation :=
  [ plain (fun conf =>
      if negb (truthy (prop "ipv4" conf)) then <["remotehost" := JNull]> conf
      else if autoconf then conf
      else choose E QHasDNS
             (simpleValue E QDNSName "remotehost" conf)
             (<["remotehost" := JNull]> conf)) ].

Definition getUseUPnPOperations (E : Env) (autoconf : bool) : list operation :=
  [ plain (fun conf =>
      if negb (truthy (prop "ipv4" conf)) then <["upnp" := JBool false]> conf
      else if autoconf then <["upnp" := JBool true]> conf
      else choose E QUseUPnP
             (<["upnp" := JBool true]> conf)
             (<["upnp" := JBool false]> conf)) ].

(** The probe never fails the resolution: a rejected probe is reported as
    [(false, {})]. *)
Definition upnpResolve (K : Constants) (E : Env) (noupnp : jsval)
  : bool * gmap string jsval :=
  match upnpConf K noupnp (probe_random E) (client E) with
  | Ok conf => (true, conf)
  | Throw _ => (false, ∅)
  end.

(** The last step of the "local = remote" paths. *)
Definition mirror_local : operation :=
  plain (fun conf =>
    let conf := <["remoteipv4" := prop "ipv4" conf]> conf in
    let conf := <["remoteipv6" := prop "ipv6" conf]> conf in
    <["remoteport" := prop "port" conf]> conf).

(** The two branches of [networkReconfiguration], after the probe. *)
Definition upnp_available (K : Constants) (E : Env) (autoconf : bool)
  (upnpConf conf : gmap string jsval) : gmap string jsval :=
  let localOperations := getLocalNetworkOperations K E autoconf in
  let remoteOpertions := getRemoteNetworkOperations E in
  let dnsOperations := getHostnameOperations E autoconf in
  let useUPnPOperations := getUseUPnPOperations E autoconf in
  let conf := extend conf upnpConf in
  let keep conf :=
    (* Use proposed local + remote with UPnP binding *)
    let conf := <["ipv6" := getBestLocalIPv6 (os E)]>
                  (<["remoteipv6" := getBestLocalIPv6 (os E)]> conf) in
    waterfall (useUPnPOperations ++ dnsOperations) conf in
  if autoconf then keep conf
  else choose E QKeepUPnP
         (keep conf)
         (waterfall (localOperations ++ remoteOpertions
                     ++ useUPnPOperations ++ dnsOperations) conf).

Definition upnp_unavailable (K : Constants) (E : Env) (autoconf : bool)
  (conf : gmap string jsval) : gmap string jsval :=
  let localOperations := getLocalNetworkOperations K E autoconf in
  let remoteOpertions := getRemoteNetworkOperations E in
  let dnsOperations := getHostnameOperations E autoconf in
  let conf := <["upnp" := JBool false]> conf in
  if autoconf then
    (* Yes: local configuration = remote configuration *)
    waterfall (localOperations ++ getHostnameOperations E autoconf
               ++ [mirror_local]) conf
  else choose E QPublicServer
         (waterfall (localOperations ++ getHostnameOperations E false
                     ++ [mirror_local]) conf)
         (waterfall (localOperations ++ remoteOpertions ++ dnsOperations) conf).

(** The "Default values" of [networkReconfiguration]. *)
Definition default_values (K : Constants) (conf : gmap string jsval)
  : gmap string jsval :=
  let conf := <["port" := js_or (prop "port" conf) (JNum (DEFAULT_PORT K))]> conf in
  <["remoteport" := js_or (prop "remoteport" conf) (JNum (DEFAULT_PORT K))]> conf.

Definition networkReconfiguration (K : Constants) (E : Env)
  (conf : gmap string jsval) (autoconf : bool) (noupnp : jsval)
  : gmap string jsval :=
  let '(upnpSuccess, upnpConf) := upnpResolve K E noupnp in
  let conf := default_values K conf in
  if upnpSuccess then upnp_available K E autoconf upnpConf conf
  else upnp_unavailable K E autoconf conf.

Definition networkConfiguration (K : Constants) (E : Env)
  (conf : gmap string jsval) : gmap string jsval :=
  let '(upnpSuccess, upnpConf) :=
    upnpResolve K E (JBool (negb (truthy (prop "upnp" conf)))) in
  let operations := getLocalNetworkOperations K E false ++ getRemoteNetworkOperations E in
  let operations :=
    if upnpSuccess then operations ++ getUseUPnPOperations E false else operations in
  waterfall (operations ++ getHostnameOperations E false) conf.

(** [if (program.opt) conf.field = program.opt;] *)
Definition override (program : gmap string jsval) (opt field : string)
  (conf : gmap string jsval) : gmap string jsval :=
  if truthy (prop opt program) then <[field := prop opt program]> conf else conf.

(** [if (!conf.remote && conf.local) conf.remote = conf.local;] *)
Definition default_remote (remote local : string) (conf : gmap string jsval)
  : gmap string jsval :=
  if negb (truthy (prop remote conf)) && truthy (prop local conf)
  then <[remote := prop local conf]> conf else conf.

Definition NO_LOCAL_INTERFACE : string := "No interface to listen to.".
Definition NO_REMOTE_INTERFACE : string := "No interface for remote contact.".
Definition NO_REMOTE_PORT : string := "No port for remote contact.".

(** The final checks of [onLoading] ("Configuration errors"). *)
Definition configuration_errors (conf : gmap string jsval) : result unit :=
  if negb (truthy (prop "ipv4" conf)) && negb (truthy (prop "ipv6" conf))
  then Throw NO_LOCAL_INTERFACE
  else if negb (truthy (prop "remoteipv4" conf))
          && negb (truthy (prop "remoteipv6" conf))
          && negb (truthy (prop "remotehost" conf))
  then Throw NO_REMOTE_INTERFACE
  else if negb (truthy (prop "remoteport" conf))
  then Throw NO_REMOTE_PORT
  else Ok tt.

(** The command-line options copied onto the configuration. *)
Definition apply_options (program conf : gmap string jsval) : gmap string jsval :=
  let conf := override program "port" "port" conf in
  let conf := override program "ipv4" "ipv4" conf in
  let conf := override program "ipv6" "ipv6" conf in
  let conf := override program "remoteh" "remotehost" conf in
  let conf := override program "remote4" "remoteipv4" conf in
  let conf := override program "remote6" "remoteipv6" conf in
  override program "remotep" "remoteport" conf.

(** "Default remote: same as local if defined". *)
Definition default_remotes (conf : gmap string jsval) : gmap string jsval :=
  let conf := default_remote "remoteipv4" "ipv4" conf in
  let conf := default_remote "remoteipv6" "ipv6" conf in
  default_remote "remoteport" "port" conf.

(** The truth value of [autoconfNet]. *)
Definition autoconfNet (program conf : gmap string jsval) : bool :=
  truthy (prop "autoconf" program)
  || negb (truthy (prop "ipv4" conf) || truthy (prop "ipv6" conf))
  || negb (truthy (prop "remoteipv4" conf) || truthy (prop "remoteipv6" conf)
           || truthy (prop "remotehost" conf))
  || negb (truthy (prop "port" conf) && truthy (prop "remoteport" conf)).

(** The default of [conf.upnp] and the two options that force it. *)
Definition upnp_flags (program conf : gmap string jsval) : gmap string jsval :=
  let conf :=
    if is_nullish (prop "upnp" conf) then <["upnp" := JBool true]> conf else conf in
  let conf :=
    if is_true (prop "noupnp" program) then <["upnp" := JBool false]> conf else conf in
  if is_true (prop "upnp" program) then <["upnp" := JBool true]> conf else conf.

(** [config.onLoading]: the configuration object as the function leaves it,
    and whether it returned or threw. *)
Definition onLoading (K : Constants) (E : Env)
  (conf program : gmap string jsval) : gmap string jsval * result unit :=
  let conf := apply_options program conf in
  let conf := default_remotes conf in
  (* Network autoconf *)
  let conf :=
    if autoconfNet program conf
    then networkReconfiguration K E conf (autoconfNet program conf)
           (prop "noupnp" program)
    else conf in
  let conf := upnp_flags program conf in
  (* Configuration errors *)
  (conf, configuration_errors conf).

End Bma.

(** ** Life of a listener set

    What happens to the servers of [createServersAndListen] between their
    creation and a given moment: calls of [openConnections] and
    [closeConnections], connections accepted by a listening server, and
    ['close'] events of registered sockets.  A call is taken as a whole:
    events of other origins are not interleaved with its loop. *)

Module Lifecycle.
Import Network.

Inductive step : list server -> list server -> Prop :=
| step_open (bind_ok : nat -> bool) (l : list server) :
    step l (fst (openConnections bind_ok l))
| step_close (l : list server) :
    step l (fst (fst (closeConnections l)))
| step_connection (l : list server) (i : nat) (s : server) :
    l !! i = Some s -> listening s = true ->
    step l (<[i := on_connection s]> l)
| step_socket_close (l : list server) (i : nat) (s : server) (socketId : nat) :
    l !! i = Some s ->
    step l (<[i := on_socket_close socketId s]> l).

Inductive reachable (interfaces : list (string * jsval)) : list server -> Prop :=
| reach_created (a : api) :
    createServersAndListen interfaces = Ok a -> reachable interfaces (servers a)
| reach_step (l l' : list server) :
    reachable interfaces l -> step l l' -> reachable interfaces l'.

(** The server an event is about. *)
Definition event_index (e : event) : nat :=
  match e with
  | EListen i _ _ => i
  | EDestroy i _ => i
  | EClose i => i
  end.

(** The calls [closeConnections] makes for server [i]: every registered
    socket is destroyed, then the server is closed. *)
Definition close_block (i : nat) (s : server) : list event :=
  map (EDestroy i) (socket_keys s) ++ [EClose i].

(** No registered socket of the server is open. *)
Definition no_open_socket (s : server) : Prop :=
  forall socketId st, sockets s !! socketId = Some st -> st = Destroyed.

(** The tracked connections that are still open. *)
Definition open_connections (s : server) : gmap nat socket_state :=
  filter (fun kv => snd kv = Open) (sockets s).

(** Delivery of the ['close'] events that are pending, those of the
    destroyed sockets. *)
Definition pending_closes (s : server) : list nat :=
  filter (fun k => sockets s !! k = Some Destroyed) (socket_keys s).

Definition deliver_closes (s : server) : server :=
  fold_right on_socket_close s (pending_closes s).

(** What one turn of the loop of [openConnections] does to server [i]. *)
Definition open_entry (bind_ok : nat -> bool) (i : nat) (s : server) : server :=
  if listening s then s
  else {| ip := ip s; port := port s; listening := bind_ok i;
          sockets := sockets s; nextSocketId := nextSocketId s;
          errorPropagates := true |}.

(** What one turn of the loop of [closeConnections] does to a server, when
    it does not throw. *)
Definition close_entry (s : server) : server :=
  if listening s then closeSockets (set_listening false s) else s.

(** The calls of a whole [closeConnections] that does not throw. *)
Fixpoint close_events (i : nat) (l : list server) : list event :=
  match l with
  | [] => []
  | s :: rest =>
      (if listening s then close_block i s else []) ++ close_events (S i) rest
  end.

(** A listening server has its error hook assigned, and a server that is
    not listening tracks no open connection. *)
Definition server_inv (s : server) : Prop :=
  (listening s = true -> errorPropagates s = true)
  /\ (listening s = false -> no_open_socket s).

End Lifecycle.

(** ** Vocabulary of the specification

    Definitions that follow the wording of the specification, to be compared
    with the functions of the source. *)

Module Spec.
Import Network.

(** A field is absent when it is falsy. *)
Definition absent (v : jsval) : bool := negb (truthy v).

(** "Choosing the first address whose interface name matches the
    earliest-ranked pattern; ties within a rank are resolved by OS
    enumeration order": the first element of smallest rank. *)
Fixpoint earliest_ranked {A} (rank : A -> nat) (l : list A) : option A :=
  match l with
  | [] => None
  | x :: l' =>
      match earliest_ranked rank l' with
      | Some y => if (rank y <? rank x)%nat then Some y else Some x
      | None => Some x
      end
  end.

(** The same selection as a relation: [e] occurs in [l], everything before
    it ranks strictly later, everything after it ranks no earlier. *)
Definition first_earliest {A} (rank : A -> nat) (l : list A) (e : A) : Prop :=
  exists pre post, l = pre ++ e :: post
    /\ (forall x, x ∈ pre -> (rank e < rank x)%nat)
    /\ (forall x, x ∈ post -> (rank e <= rank x)%nat).

(** "Tunnel interfaces, then wired Ethernet naming variants, then wireless
    naming variants, then loopback, then unnamed/none". *)
Inductive name_class : Type :=
| Tunnel
| Wired
| Wireless
| Loopback
| NoneName
| Unranked.

Definition matches_any (pats : list string) (nm : string) : bool :=
  existsb (fun p => regexp_test p nm) pats.

Definition class_of (nm : string) : name_class :=
  if matches_any ["^tun\d"] nm then Tunnel
  else if matches_any ["^enp\ds\d"; "^enp\ds\df\d"; "^eth\d"; "^Ethernet"] nm then Wired
  else if matches_any ["^wlp\ds\d"; "^wlan\d"; "^Wi-Fi"] nm then Wireless
  else if matches_any ["^lo"; "^Loopback"] nm then Loopback
  else if matches_any ["^None"] nm then NoneName
  else Unranked.

Definition class_rank (c : name_class) : nat :=
  match c with
  | Tunnel => 0
  | Wired => 1
  | Wireless => 2
  | Loopback => 3
  | NoneName => 4
  | Unranked => 5
  end.

(** An IPv6 address qualifies when it is non-internal, of zero scope, and
    its text starts neither with [fe80] nor with [::1]. *)
Definition qualifies_v6 (a : addr_info) : bool :=
  where_global_v6 a && not_local_v6 a.

(** The candidates of a family, each with the name of its interface, in
    enumeration order. *)
Definition candidates_v6 (os : os_interfaces) : list entry :=
  flat_map (fun kv =>
    map (fun a => {| entry_name := fst kv; entry_value := address a |})
        (filter (fun a => qualifies_v6 a = true) (snd kv))) os.

(** Best local IPv6 as the specification words it: among the qualifying
    addresses, the one chosen by the interface-name priority order. *)
Definition bestLocalIPv6_by_priority (os : os_interfaces) : jsval :=
  match earliest_ranked priority (candidates_v6 os) with
  | Some e => JStr (entry_value e)
  | None => JNull
  end.

(** Best local IPv6 by enumeration order alone. *)
Definition bestLocalIPv6_by_enumeration (os : os_interfaces) : jsval :=
  match candidates_v6 os with
  | e :: _ => JStr (entry_value e)
  | [] => JNull
  end.

(** The fields of a text between its dots. *)
Fixpoint split_dots (cur : string) (s : string) : list string :=
  match s with
  | EmptyString => [cur]
  | String c rest =>
      if Ascii.eqb c "." then cur :: split_dots "" rest
      else split_dots (cur ++ String c "") rest
  end.

Fixpoint all_digits (s : string) : bool :=
  match s with
  | EmptyString => true
  | String c rest => is_digit c && all_digits rest
  end.

(** Modelled from the spec: [constants.IPV4_REGEXP] of [lib/constants.js],
    which is not among the sources.  "IPv4 must match a dotted-quad
    pattern": four fields of one to three decimal digits, separated by
    dots.  It is used for the sample constants only. *)
Definition dotted_quad (s : string) : bool :=
  let fields := split_dots "" s in
  (length fields =? 4)%nat
  && forallb (fun f => (1 <=? String.length f)%nat && (String.length f <=? 3)%nat
                       && all_digits f) fields.

End Spec.

(** ** Sample inputs *)

Module Samples.
Import Network Bma.

Definition mk_addr (a fam : string) (int : bool) (scope : jsval) : addr_info :=
  {| address := a; family := fam; internal := int; scopeid := scope |}.

Definition lo_addrs : list addr_info :=
  [ mk_addr "127.0.0.1" "IPv4" true JUndefined;
    mk_addr "::1" "IPv6" true (JNum 0) ].

Definition eth0_addrs : list addr_info :=
  [ mk_addr "192.168.1.10" "IPv4" false JUndefined;
    mk_addr "fe80::a00:27ff:fe4e:66a1" "IPv6" false (JNum 2);
    mk_addr "2001:db8::1" "IPv6" false (JNum 0) ].

Definition wlan0_addrs : list addr_info :=
  [ mk_addr "192.168.1.7" "IPv4" false JUndefined;
    mk_addr "2001:db8::2" "IPv6" false (JNum 0) ].

Definition os_lo_eth : os_interfaces := [ ("lo", lo_addrs); ("eth0", eth0_addrs) ].

Definition os_wlan_eth : os_interfaces :=
  [ ("lo", lo_addrs); ("wlan0", wlan0_addrs); ("eth0", eth0_addrs) ].

(** Sample constants.  The numeric values are illustrative; every theorem
    below is stated for arbitrary constants. *)
Definition K0 : Constants :=
  {| PORT_START := 15000; DEFAULT_PORT := 10901; IPV4_REGEXP := Spec.dotted_quad |}.

(** A gateway that answers the probe, and one that does not. *)
Definition gateway_up : Gateway :=
  {| externalIp := Ok (JStr "203.0.113.5");
     portMapping := fun _ _ _ => Ok tt;
     findGateway := Ok (JStr "192.168.1.10") |}.

Definition gateway_down : Gateway :=
  {| externalIp := Throw "timeout";
     portMapping := fun _ _ _ => Throw "timeout";
     findGateway := Throw "timeout" |}.

(** A gateway that answers, but whose external address is not an IPv4. *)
Definition gateway_odd : Gateway :=
  {| externalIp := Ok (JStr "unknown");
     portMapping := fun _ _ _ => Ok tt;
     findGateway := Ok (JStr "192.168.1.10") |}.

(** A draw for which the port computed from [PORT_START K0] is 20900. *)
Definition draw_20900 : unit_double := {| mant := 1051665727453681; expo := 53 |}.

Definition silent : question -> jsval := fun _ => JUndefined.

Definition env_up : Env :=
  {| os := os_wlan_eth; client := gateway_up; probe_random := draw_20900;
     port_random := draw_20900; operator := silent |}.

Definition env_down_drawing (r : unit_double) : Env :=
  {| os := os_lo_eth; client := gateway_down; probe_random := draw_20900;
     port_random := r; operator := silent |}.

Definition env_down : Env := env_down_drawing draw_20900.

Definition env_odd : Env :=
  {| os := os_lo_eth; client := gateway_odd; probe_random := draw_20900;
     port_random := draw_20900; operator := silent |}.

(** A host without any network interface and without gateway. *)
Definition env_none : Env :=
  {| os := []; client := gateway_down; probe_random := draw_20900;
     port_random := draw_20900; operator := silent |}.

(** A node whose remote port is forwarded by hand to port 80. *)
Definition conf_port80 : gmap string jsval := {[ "remoteport" := JNum 80 ]}.

(** Two listeners, both bound, two connections accepted on the first. *)
Definition interfaces0 : list (string * jsval) :=
  [ ("127.0.0.1", JNum 10901); ("::1", JNum 10901) ].

Definition servers_created : list server := map new_server interfaces0.

Definition servers_open : list server :=
  fst (openConnections (fun _ => true) servers_created).

Definition server0_open : server :=
  {| ip := "127.0.0.1"; port := JNum 10901; listening := true;
     sockets := ∅; nextSocketId := 0%nat; errorPropagates := true |}.

Definition servers_one : list server :=
  <[0%nat := on_connection server0_open]> servers_open.

Definition servers_busy : list server :=
  <[0%nat := on_connection (on_connection server0_open)]> servers_one.

Definition api0 : api :=
  {| servers := servers_created; ddos_whitelist := ["127.0.0.1"; "::1"] |}.

End Samples.

(** ** More on the listener set *)

Module Registry.
Import Network.

(** Every registered socket id was handed out by the counter of its
    server. *)
Definition ids_below (s : server) : Prop :=
  forall socketId, is_Some (sockets s !! socketId) -> (socketId < nextSocketId s)%nat.

(** The interface a server was created for. *)
Definition interface_of (s : server) : string * jsval := (ip s, port s).

End Registry.

(** ** Running a list of waterfall steps *)

Module Steps.
Import Bma.

(** The state after the steps [ops], run in order from the state [st]. *)
Definition run (ops : list operation) (st : wstate) : wstate :=
  fold_left (fun st op => op st) ops st.

(** The state a waterfall starts from. *)
Definition start (conf : gmap string jsval) : wstate := (conf, ∅).

End Steps.

(** ** lib/upnp.js: the port mapping service

    The module maps the ports once, gives up only when the gateway does not
    answer at all, and returns a service that can renew the mapping on a
    timer.  A rejection of the gateway client is identified by the message
    of its error. *)

Module Upnp.
Import Network.

(** The two constants of [lib/constants.js] the module uses. *)
Record UpnpConstants : Type := {
  UPNP_TTL : Z;
  UPNP_INTERVAL : Z
}.

(** [parseInt(v)] for a configuration value: a number is kept; a text is
    read after its leading blanks and sign, in base 16 after [0x] and in
    base 10 otherwise, up to the first character that is not a digit of the
    base; anything else is [NaN].  Texts are ASCII and the values read stay
    below 2^53. *)
Definition is_space (c : ascii) : bool :=
  let n := nat_of_ascii c in ((9 <=? n)%nat && (n <=? 13)%nat) || (n =? 32)%nat.

Fixpoint skip_spaces (s : string) : string :=
  match s with
  | String c rest => if is_space c then skip_spaces rest else s
  | EmptyString => s
  end.

Definition digit_of (radix : Z) (c : ascii) : option Z :=
  let n := Z.of_nat (nat_of_ascii c) in
  let d := if (48 <=? n) && (n <=? 57) then Some (n - 48)
           else if (97 <=? n) && (n <=? 122) then Some (n - 87)
           else if (65 <=? n) && (n <=? 90) then Some (n - 55)
           else None in
  match d with
  | Some v => if v <? radix then Some v else None
  | None => None
  end.

Fixpoint digits_prefix (radix : Z) (acc : option Z) (s : string) : option Z :=
  match s with
  | String c rest =>
      match digit_of radix c with
      | Some d => digits_prefix radix (Some (radix * default 0 acc + d)) rest
      | None => acc
      end
  | EmptyString => acc
  end.

Definition parseInt (v : jsval) : jsval :=
  match v with
  | JNum n => JNum n
  | JStr s =>
      let s := skip_spaces s in
      let '(sign, s) :=
        match s with
        | String "-" rest => (-1, rest)
        | String "+" rest => (1, rest)
        | _ => (1, s)
        end in
      let '(radix, s) :=
        match s with
        | String "0" (String "x" rest) => (16, rest)
        | String "0" (String "X" rest) => (16, rest)
        | _ => (10, s)
        end in
      match digits_prefix radix None s with
      | Some n => JNum (sign * n)
      | None => JNaN
      end
  | _ => JNaN
  end.

(** [openPort(localPort, remotePort)] *)
Definition openPort (U : UpnpConstants) (client : Gateway)
  (localPort remotePort : jsval) : result unit :=
  portMapping client (parseInt remotePort) (parseInt localPort) (UPNP_TTL U).

(** The timers created by [setInterval] and not yet cleared, and the next
    timer to be handed out. *)
Record timers : Type := {
  active : gset nat;
  next_timer : nat
}.

Definition setInterval (t : timers) : nat * timers :=
  (next_timer t,
   {| active := {[ next_timer t ]} ∪ active t; next_timer := S (next_timer t) |}).

Definition clearInterval (id : nat) (t : timers) : timers :=
  {| active := active t ∖ {[ id ]}; next_timer := next_timer t |}.

(** The service object: its variable [interval] holds the last timer set,
    if any. *)
Record service : Type := {
  interval : option nat
}.

Definition stopRegular (sv : service) (t : timers) : timers :=
  match interval sv with
  | Some id => clearInterval id t
  | None => t
  end.

Definition startRegular (sv : service) (t : timers) : service * timers :=
  let t := stopRegular sv t in
  let '(id, t) := setInterval t in
  ({| interval := Some id |}, t).

Definition NO_GATEWAY_FOUND : string :=
  "No UPnP gateway found: your node won't be reachable from the Internet. Use --noupnp option to avoid this message.".

(** The module function: the service, or the error it rejects with. *)
Definition upnp (U : UpnpConstants) (client : Gateway)
  (localPort remotePort : jsval) : result service :=
  match openPort U client localPort remotePort with
  | Ok _ => Ok {| interval := None |}
  | Throw _ =>
      match externalIp client with
      | Ok _ => Ok {| interval := None |}
      | Throw message =>
          if String.eqb message "timeout" then Throw NO_GATEWAY_FOUND
          else Throw message
      end
  end.

(** The pattern of [findGateway], [(\d+.\d+.\d+.\d+):], as a sequence of
    items; its dots are not escaped and stand for any character but a line
    break. *)
Inductive item : Type :=
| IDigits               (* \d+ *)
| IAny                  (* . *)
| IChar (c : ascii).

Definition is_line_break (c : ascii) : bool :=
  let n := nat_of_ascii c in (n =? 10)%nat || (n =? 13)%nat.

Fixpoint digit_run (s : string) : nat :=
  match s with
  | String c rest => if is_digit c then S (digit_run rest) else 0%nat
  | EmptyString => 0%nat
  end.

Fixpoint string_drop (n : nat) (s : string) : string :=
  match n, s with
  | S n', String _ rest => string_drop n' rest
  | _, _ => s
  end.

Fixpoint string_take (n : nat) (s : string) : string :=
  match n, s with
  | S n', String c rest => String c (string_take n' rest)
  | _, _ => EmptyString
  end.

(** The length of the match of [items] at the start of [s], found as a
    backtracking matcher finds it: [\d+] takes the longest run of digits
    first and gives characters back one at a time. *)
Fixpoint match_items (items : list item) (s : string) : option nat :=
  match items with
  | [] => Some 0%nat
  | IChar d :: rest =>
      match s with
      | String c s' => if Ascii.eqb c d then S <$> match_items rest s' else None
      | EmptyString => None
      end
  | IAny :: rest =>
      match s with
      | String c s' => if is_line_break c then None else S <$> match_items rest s'
      | EmptyString => None
      end
  | IDigits :: rest =>
      (fix try (k : nat) : option nat :=
         match k with
         | O => None
         | S k' =>
             match match_items rest (string_drop k s) with
             | Some n => Some (k + n)%nat
             | None => try k'
             end
         end) (digit_run s)
  end.

Definition gateway_pattern : list item :=
  [IDigits; IAny; IDigits; IAny; IDigits; IAny; IDigits; IChar ":"].

(** [desc.match(/(\d+.\d+.\d+.\d+):/)], then [match[1]]: the leftmost
    match, without its final colon. *)
Fixpoint first_group (desc : string) : option string :=
  match match_items gateway_pattern desc with
  | Some n => Some (string_take (n - 1) desc)
  | None =>
      match desc with
      | String _ rest => first_group rest
      | EmptyString => None
      end
  end.

(** [findGateway()], from what the gateway client answers: the description
    of the first gateway when there is one.  Any failure gives [null]. *)
Definition findGateway_address (answer : result (option string)) : option string :=
  match answer with
  | Ok (Some desc) => if String.eqb desc "" then None else first_group desc
  | _ => None
  end.

End Upnp.

(** ** index.js: the service ([BMAPI])

    [lib/bma.js], which builds the HTTP API, is not among the sources: what
    it returns, or the error it throws, is an input of [startService]. *)

Module Service.
Import Network Upnp.

Record bmapi_state : Type := {
  bmapi : option api;           (* the variable [bmapi] *)
  upnpAPI : option service;     (* the variable [upnpAPI] *)
  renewals : timers
}.

Definition created : bmapi_state :=
  {| bmapi := None; upnpAPI := None;
     renewals := {| active := ∅; next_timer := 0%nat |} |}.

(** [if (whitelist.indexOf(gateway) === -1) whitelist.push(gateway)] *)
Definition whitelist_gateway (gateway : option string) (whitelist : list string)
  : list string :=
  match gateway with
  | Some g =>
      if String.eqb g "" then whitelist
      else if existsb (String.eqb g) whitelist then whitelist
      else whitelist ++ [g]
  | None => whitelist
  end.

(** What one call of [startService] depends on. *)
Record start_inputs : Type := {
  conf_port : jsval;                        (* server.conf.port *)
  conf_remoteport : jsval;                  (* server.conf.remoteport *)
  conf_upnp : jsval;                        (* server.conf.upnp *)
  bma_result : result api;                  (* what bma(...) resolves or rejects with *)
  bind_ok : nat -> bool;                    (* the answers of the system to listen *)
  gateway : Gateway;                        (* the answers of the gateway *)
  gateway_answer : result (option string)   (* the answer to findGateway *)
}.

Definition startService (U : UpnpConstants) (inp : start_inputs) (st : bmapi_state)
  : bmapi_state * result unit :=
  match bma_result inp with
  | Throw e => (st, Throw e)
  | Ok a =>
      let a := {| servers := fst (openConnections (bind_ok inp) (servers a));
                  ddos_whitelist := ddos_whitelist a |} in
      let t := match upnpAPI st with
               | Some sv => stopRegular sv (renewals st)
               | None => renewals st
               end in
      if truthy (conf_upnp inp) then
        match upnp U (gateway inp) (conf_port inp) (conf_remoteport inp) with
        | Ok sv =>
            let '(sv, t) := startRegular sv t in
            let a := {| servers := servers a;
                        ddos_whitelist :=
                          whitelist_gateway (findGateway_address (gateway_answer inp))
                                            (ddos_whitelist a) |} in
            ({| bmapi := Some a; upnpAPI := Some sv; renewals := t |}, Ok tt)
        | Throw _ =>
            ({| bmapi := Some a; upnpAPI := upnpAPI st; renewals := t |}, Ok tt)
        end
      else ({| bmapi := Some a; upnpAPI := upnpAPI st; renewals := t |}, Ok tt)
  end.

Definition stopService (st : bmapi_state) : bmapi_state * result unit :=
  let '(closed, r) :=
    match bmapi st with
    | Some a =>
        let '(l, _, r) := closeConnections (servers a) in
        (Some {| servers := l; ddos_whitelist := ddos_whitelist a |}, r)
    | None => (None, Ok tt)
    end in
  match r with
  | Throw e => ({| bmapi := closed; upnpAPI := upnpAPI st; renewals := renewals st |}, Throw e)
  | Ok _ =>
      let t := match upnpAPI st with
               | Some sv => stopRegular sv (renewals st)
               | None => renewals st
               end in
      ({| bmapi := closed; upnpAPI := upnpAPI st; renewals := t |}, Ok tt)
  end.

(** The states of a service: calls of [startService] and [stopService] in
    any order, whatever they return, and whatever happens to the servers
    in between. *)
Inductive service_step (U : UpnpConstants) : bmapi_state -> bmapi_state -> Prop :=
| step_start (inp : start_inputs) (st : bmapi_state) :
    service_step U st (fst (startService U inp st))
| step_stop (st : bmapi_state) :
    service_step U st (fst (stopService st))
| step_servers (st : bmapi_state) (a : api) (l : list server) :
    bmapi st = Some a ->
    service_step U st {| bmapi := Some {| servers := l; ddos_whitelist := ddos_whitelist a |};
                         upnpAPI := upnpAPI st; renewals := renewals st |}.

Inductive service_reachable (U : UpnpConstants) : bmapi_state -> Prop :=
| service_created : service_reachable U created
| service_next (st st' : bmapi_state) :
    service_reachable U st -> service_step U st st' -> service_reachable U st'.

(** The timer held by the variable [interval] of the current UPnP service. *)
Definition current_timer (st : bmapi_state) : gset nat :=
  match upnpAPI st with
  | Some sv => match interval sv with Some id => {[ id ]} | None => ∅ end
  | None => ∅
  end.

(** [if (upnpAPI) upnpAPI.stopRegular()] *)
Definition stop_renewal (st : bmapi_state) : timers :=
  match upnpAPI st with
  | Some sv => stopRegular sv (renewals st)
  | None => renewals st
  end.

End Service.

(** Texts used to state what [findGateway] reads in a description. *)

Module Texts.

Fixpoint digit_free (s : string) : bool :=
  match s with
  | String c rest => negb (is_digit c) && digit_free rest
  | EmptyString => true
  end.

(** A non-empty run of decimal digits. *)
Definition number (s : string) : bool :=
  negb (String.eqb s "") && Spec.all_digits s.

Definition dotted (d1 d2 d3 d4 : string) : string :=
  (d1 ++ "." ++ d2 ++ "." ++ d3 ++ "." ++ d4)%string.

End Texts.

(** Sample inputs of the loading and of the service. *)

Module ServiceSamples.
Import Network Upnp Service.

(** A configuration with its four mandatory fields. *)
Definition conf_complete : gmap string jsval :=
  {[ "ipv4" := JStr "192.168.1.10"; "port" := JNum 10901;
     "remoteipv4" := JStr "203.0.113.5"; "remoteport" := JNum 10901 ]}.

(** Illustrative values of the two UPnP constants. *)
Definition U0 : UpnpConstants := {| UPNP_TTL := 600; UPNP_INTERVAL := 300 |}.

Definition inputs0 : start_inputs :=
  {| conf_port := JNum 10901; conf_remoteport := JNum 10901; conf_upnp := JBool true;
     bma_result := createServersAndListen Samples.interfaces0;
     bind_ok := fun _ => true;
     gateway := Samples.gateway_up;
     gateway_answer := Ok (Some "http://192.168.1.1:5000/rootDesc.xml") |}.

Definition started : bmapi_state := fst (startService U0 inputs0 created).

End ServiceSamples.

(** * Properties *)

Section Inventory.
Import Network Spec.

Lemma sort_insert_head {A} (x : nat * nat * A) (l : list (nat * nat * A)) :
  head (sort_insert x l) =
  match head l with
  | None => Some x
  | Some y => if sort_le (fst x) (fst y) then Some x else Some y
  end.
Proof.
  destruct l as [|y l]; simpl; [reflexivity|].
  destruct (sort_le (fst x) (fst y)); reflexivity.
Qed.

(** The head of the sorted decorated list is the earliest-ranked element,
    paired with its criteria and an index not below the starting one. *)
Lemma sorted_head {A} (criteria : A -> nat) (l : list A) : forall i,
  match earliest_ranked criteria l with
  | None => fold_right sort_insert [] (decorate criteria i l) = []
  | Some e => exists j, (i <= j)%nat /\
      head (fold_right sort_insert [] (decorate criteria i l)) = Some (criteria e, j, e)
  end.
Proof.
  induction l as [|x l IH]; intros i; simpl; [reflexivity|].
  specialize (IH (S i)).
  destruct (earliest_ranked criteria l) as [y|].
  - destruct IH as (j & Hj & Hhd).
    rewrite sort_insert_head, Hhd. unfold sort_le. simpl.
    destruct (Nat.ltb_spec (criteria y) (criteria x)) as [Hlt|Hge].
    + exists j. split; [lia|].
      destruct (Nat.ltb_spec (criteria x) (criteria y)); [lia|].
      destruct (Nat.eqb_spec (criteria x) (criteria y)); [lia|]. reflexivity.
    + exists i. split; [lia|].
      destruct (Nat.ltb_spec (criteria x) (criteria y)); [reflexivity|].
      destruct (Nat.eqb_spec (criteria x) (criteria y)); [|lia].
      destruct (Nat.leb_spec i j); [reflexivity|lia].
  - rewrite IH. exists i. split; [lia|]. reflexivity.
Qed.

Lemma sortBy_head {A} (criteria : A -> nat) (l : list A) :
  head (sortBy criteria l) = earliest_ranked criteria l.
Proof.
  unfold sortBy. pose proof (sorted_head criteria l 0%nat) as H.
  destruct (earliest_ranked criteria l) as [e|].
  - destruct H as (j & _ & Hhd).
    destruct (fold_right sort_insert [] (decorate criteria 0%nat l)) as [|d ds];
      simpl in *; [discriminate|]. injection Hhd as ->. reflexivity.
  - rewrite H. reflexivity.
Qed.

(** What [earliest_ranked] selects: everything before it ranks strictly
    later, everything after it ranks no earlier. *)
Lemma earliest_ranked_split {A} (rank : A -> nat) (pre post : list A) (e : A) :
  (forall x, x ∈ pre -> (rank e < rank x)%nat) ->
  (forall x, x ∈ post -> (rank e <= rank x)%nat) ->
  earliest_ranked rank (pre ++ e :: post) = Some e.
Proof.
  intros Hpre Hpost.
  assert (Hpost' : earliest_ranked rank (e :: post) = Some e).
  { clear Hpre. revert Hpost.
    assert (G : forall l, (forall x, x ∈ l -> (rank e <= rank x)%nat) ->
              match earliest_ranked rank l with
              | Some y => (rank e <= rank y)%nat | None => True end).
    { induction l as [|x l IH]; intros Hl; simpl; [exact I|].
      assert (Hx : (rank e <= rank x)%nat) by (apply Hl; left).
      assert (Hl' : forall z, z ∈ l -> (rank e <= rank z)%nat)
        by (intros z Hz; apply Hl; right; exact Hz).
      specialize (IH Hl').
      destruct (earliest_ranked rank l) as [y|]; [|exact Hx].
      destruct (rank y <? rank x)%nat; assumption. }
    intros Hpost. specialize (G post Hpost). simpl.
    destruct (earliest_ranked rank post) as [y|]; [|reflexivity].
    destruct (Nat.ltb_spec (rank y) (rank e)); [lia|reflexivity]. }
  induction pre as [|x pre IH]; [exact Hpost'|].
  simpl. rewrite IH.
  - assert (Hx : (rank e < rank x)%nat) by (apply Hpre; left).
    destruct (Nat.ltb_spec (rank e) (rank x)); [reflexivity|lia].
  - intros z Hz. apply Hpre. right. exact Hz.
Qed.

Lemma getBestLocal_earliest (fam : option string) (os : os_interfaces) :
  getBestLocal fam os =
  match earliest_ranked priority (collect fam os) with
  | Some e => entry_value e
  | None => ""
  end.
Proof.
  unfold getBestLocal. rewrite <- sortBy_head.
  destruct (sortBy priority (collect fam os)); reflexivity.
Qed.

Lemma earliest_ranked_first {A} (rank : A -> nat) (l : list A) (e : A) :
  earliest_ranked rank l = Some e -> first_earliest rank l e.
Proof.
  revert e. induction l as [|x l IH]; intros e; simpl; [discriminate|].
  destruct (earliest_ranked rank l) as [y|] eqn:Hl.
  - destruct (IH y eq_refl) as (pre & post & -> & Hpre & Hpost).
    destruct (Nat.ltb_spec (rank y) (rank x)) as [Hlt|Hge]; intros [= <-].
    + exists (x :: pre), post. split; [reflexivity|]. split; [|exact Hpost].
      intros z Hz. apply elem_of_cons in Hz as [->|Hz]; [exact Hlt|auto].
    + exists [], (pre ++ y :: post). split; [reflexivity|].
      split; [intros z Hz; inversion Hz|].
      intros z Hz. apply elem_of_app in Hz as [Hz|Hz].
      * specialize (Hpre z Hz). lia.
      * apply elem_of_cons in Hz as [->|Hz]; [lia|]. specialize (Hpost z Hz). lia.
  - intros [= <-]. destruct l as [|z l]; [|simpl in Hl; destruct (earliest_ranked rank l);
      [destruct (_ <? _)%nat|]; discriminate].
    exists [], []. split; [reflexivity|]. split; intros z Hz; inversion Hz.
Qed.

Lemma first_earliest_ranked {A} (rank : A -> nat) (l : list A) (e : A) :
  first_earliest rank l e -> earliest_ranked rank l = Some e.
Proof.
  intros (pre & post & -> & Hpre & Hpost). apply earliest_ranked_split; assumption.
Qed.

(** The rank given by the source agrees with the classes of the
    specification. *)
Lemma priority_class (e : entry) :
  match class_of (entry_name e) with
  | Tunnel => priority e = 0
  | Wired => 1 <= priority e <= 4
  | Wireless => 5 <= priority e <= 7
  | Loopback => 8 <= priority e <= 9
  | NoneName => priority e = 10
  | Unranked => priority e = 11
  end%nat.
Proof.
  unfold priority, class_of, matches_any, interfacePriorityRegCatcher.
  generalize (entry_name e) as nm. intros nm.
  cbn [first_match existsb].
  repeat (match goal with
          | |- context [regexp_test ?p nm] =>
              destruct (regexp_test p nm); cbn [orb]
          end; try lia).
Qed.

Lemma collect_two (fam : option string) (n1 n2 : string) (l1 l2 : list addr_info) :
  collect fam [(n1, l1); (n2, l2)] =
  map (fun a => {| entry_name := n1; entry_value := address a |})
      (filter (fun a => family_ok fam a = true) l1)
  ++ map (fun a => {| entry_name := n2; entry_value := address a |})
         (filter (fun a => family_ok fam a = true) l2).
Proof. unfold collect. simpl. rewrite app_nil_r. reflexivity. Qed.

Lemma priority_of_name (n : string) (v : string) (l : list addr_info) (x : entry) :
  x ∈ map (fun a => {| entry_name := n; entry_value := address a |}) l ->
  priority x = priority {| entry_name := n; entry_value := v |}.
Proof.
  intros Hx. apply list_elem_of_In, in_map_iff in Hx as (a & <- & _). reflexivity.
Qed.

(** C6. Best local IPv4 selection returns the address of the first
    candidate of earliest rank (ties within a rank go to the first in OS
    enumeration order) and the empty string when there is no candidate; the
    rank follows the classes tunnel, wired, wireless, loopback, none; on a
    list made of a [lo] and an [eth0] interface, in either order, it returns
    the first IPv4 address of [eth0]. *)
Theorem getBestLocalIPv4_priority_order :
  forall os : os_interfaces,
    ((collect (Some "IPv4") os = [] /\ getBestLocalIPv4 os = "")
     \/ (exists e, first_earliest priority (collect (Some "IPv4") os) e
                   /\ getBestLocalIPv4 os = entry_value e))
    /\ (forall e, first_earliest priority (collect (Some "IPv4") os) e ->
                  getBestLocalIPv4 os = entry_value e)
    /\ (forall a b : entry,
          (class_rank (class_of (entry_name a)) < class_rank (class_of (entry_name b)))%nat ->
          (priority a < priority b)%nat)
    /\ (forall (los eths rest : list addr_info) (a : addr_info),
          filter (fun x => family_ok (Some "IPv4") x = true) eths = a :: rest ->
          getBestLocalIPv4 [("lo", los); ("eth0", eths)] = address a
          /\ getBestLocalIPv4 [("eth0", eths); ("lo", los)] = address a).
Proof.
  intros os. unfold getBestLocalIPv4. repeat split.
  - rewrite getBestLocal_earliest.
    destruct (earliest_ranked priority (collect (Some "IPv4") os)) as [e|] eqn:He.
    + right. exists e. split; [apply earliest_ranked_first; exact He|reflexivity].
    + left. split; [|reflexivity].
      destruct (collect (Some "IPv4") os) as [|x l]; [reflexivity|].
      simpl in He. destruct (earliest_ranked priority l) as [y|];
        [destruct (priority y <? priority x)%nat|]; discriminate.
  - intros e He. rewrite getBestLocal_earliest, (first_earliest_ranked _ _ _ He).
    reflexivity.
  - intros a b Hab. pose proof (priority_class a) as Ha.
    pose proof (priority_class b) as Hb.
    destruct (class_of (entry_name a)), (class_of (entry_name b));
      simpl in Hab; lia.
  - rewrite getBestLocal_earliest, collect_two, H. simpl map at 2.
    rewrite earliest_ranked_split; [reflexivity| |].
    + intros x Hx. rewrite (priority_of_name _ "" _ _ Hx). vm_compute. lia.
    + intros x Hx. rewrite (priority_of_name _ "" _ _ Hx). vm_compute. lia.
  - rewrite getBestLocal_earliest, collect_two, H.
    set (e := {| entry_name := "eth0"; entry_value := address a |}).
    set (post := map (fun x => {| entry_name := "eth0"; entry_value := address x |}) rest
                 ++ map (fun x => {| entry_name := "lo"; entry_value := address x |})
                      (filter (fun x => family_ok (Some "IPv4") x = true) los)).
    change (match earliest_ranked priority ([] ++ e :: post) with
            | Some e0 => entry_value e0 | None => "" end = address a).
    rewrite earliest_ranked_split; [reflexivity| |].
    + intros x Hx. inversion Hx.
    + intros x Hx. apply elem_of_app in Hx as [Hx|Hx];
        rewrite (priority_of_name _ "" _ _ Hx); vm_compute; lia.
Qed.

(** The selection on a concrete list: [eth0] wins over [lo]. *)
Lemma getBestLocalIPv4_priority_order_witness :
  getBestLocalIPv4 Samples.os_lo_eth = "192.168.1.10".
Proof.
  destruct (getBestLocalIPv4_priority_order Samples.os_lo_eth) as (_ & _ & _ & H).
  destruct (H Samples.lo_addrs Samples.eth0_addrs [] (Samples.mk_addr "192.168.1.10" "IPv4" false JUndefined) eq_refl) as [H1 _].
  exact H1.
Defined.

End Inventory.

Section InventoryV6.
Import Network Spec.

Lemma filter_twice (l : list addr_info) :
  filter (fun a => not_local_v6 a = true) (filter (fun a => where_global_v6 a = true) l)
  = filter (fun a => qualifies_v6 a = true) l.
Proof.
  rewrite list_filter_filter. apply list_filter_iff. intros a.
  unfold qualifies_v6. rewrite andb_true_iff. tauto.
Qed.

Lemma getBestLocalIPv6_enumeration (os : os_interfaces) :
  getBestLocalIPv6 os = bestLocalIPv6_by_enumeration os.
Proof.
  unfold getBestLocalIPv6, bestLocalIPv6_by_enumeration, candidates_v6.
  induction os as [|[nm addrs] os IH]; [reflexivity|].
  simpl. rewrite filter_twice.
  destruct (filter (fun a => qualifies_v6 a = true) addrs) as [|a l]; simpl.
  - exact IH.
  - reflexivity.
Qed.

Lemma candidates_v6_elem (os : os_interfaces) (e : entry) :
  e ∈ candidates_v6 os <->
  exists addrs a, (entry_name e, addrs) ∈ os /\ a ∈ addrs
                  /\ qualifies_v6 a = true /\ address a = entry_value e.
Proof.
  unfold candidates_v6. rewrite list_elem_of_In, in_flat_map. split.
  - intros ([nm addrs] & Hin & He). simpl in He.
    apply in_map_iff in He as (a & <- & Ha).
    apply list_elem_of_In, list_elem_of_filter in Ha as [Hq Ha].
    exists addrs, a. simpl. apply list_elem_of_In in Hin. auto.
  - intros (addrs & a & Hin & Ha & Hq & Hv).
    exists (entry_name e, addrs). split; [apply list_elem_of_In; exact Hin|].
    simpl. apply in_map_iff. exists a. split.
    + destruct e; simpl in *. congruence.
    + apply list_elem_of_In, list_elem_of_filter. auto.
Qed.

Lemma qualifies_v6_inv (a : addr_info) :
  qualifies_v6 a = true ->
  family a = "IPv6" /\ scopeid a = JNum 0 /\ internal a = false
  /\ regexp_test "^fe80" (address a) = false
  /\ regexp_test "^::1" (address a) = false.
Proof.
  unfold qualifies_v6, where_global_v6, not_local_v6, is_zero.
  rewrite !andb_true_iff, !negb_true_iff.
  intros [[[Hf Hs] Hi] [H1 H2]]. apply String.eqb_eq in Hf.
  repeat split; try assumption.
  destruct (scopeid a) as [| | |n| |]; try discriminate.
  destruct n; try discriminate. reflexivity.
Qed.

(** C7, as the specification words it, fails: with a wireless interface
    enumerated before a wired one, the source returns the wireless address
    while the interface-name priority order designates the wired one. *)
Lemma getBestLocalIPv6_ignores_priority :
  getBestLocalIPv6 Samples.os_wlan_eth = JStr "2001:db8::2"
  /\ bestLocalIPv6_by_priority Samples.os_wlan_eth = JStr "2001:db8::1".
Proof. split; vm_compute; reflexivity. Qed.

(** C7, amended. Best local IPv6 selection returns the first qualifying
    address in OS enumeration order (interfaces in order, addresses in order
    within an interface), where an address qualifies when its family is
    IPv6, its scope id is 0, it is not internal, and its text starts neither
    with [fe80] nor with [::1]; it returns [null] exactly when no address
    qualifies. *)
Theorem getBestLocalIPv6_first_qualifying :
  forall os : os_interfaces,
    getBestLocalIPv6 os = bestLocalIPv6_by_enumeration os
    /\ (getBestLocalIPv6 os = JNull \/ exists s, getBestLocalIPv6 os = JStr s)
    /\ (forall s, getBestLocalIPv6 os = JStr s ->
          exists nm addrs a, (nm, addrs) ∈ os /\ a ∈ addrs /\ address a = s
            /\ family a = "IPv6" /\ scopeid a = JNum 0 /\ internal a = false
            /\ regexp_test "^fe80" s = false /\ regexp_test "^::1" s = false)
    /\ (getBestLocalIPv6 os = JNull <->
          forall nm addrs a, (nm, addrs) ∈ os -> a ∈ addrs -> qualifies_v6 a = false).
Proof.
  intros os. rewrite getBestLocalIPv6_enumeration.
  unfold bestLocalIPv6_by_enumeration.
  destruct (candidates_v6 os) as [|e l] eqn:Hc.
  - split; [reflexivity|]. split; [left; reflexivity|].
    split; [intros s Hs; discriminate|]. split; [|reflexivity].
    intros _ nm addrs a Hin Ha. destruct (qualifies_v6 a) eqn:Hq; [|reflexivity].
    assert (He : {| entry_name := nm; entry_value := address a |} ∈ candidates_v6 os).
    { apply candidates_v6_elem. exists addrs, a. auto. }
    rewrite Hc in He. inversion He.
  - split; [reflexivity|]. split; [right; eexists; reflexivity|].
    assert (He : e ∈ candidates_v6 os) by (rewrite Hc; left).
    apply candidates_v6_elem in He as (addrs & a & Hin & Ha & Hq & Hv).
    split.
    + intros s [= <-]. exists (entry_name e), addrs, a.
      destruct (qualifies_v6_inv a Hq) as (? & ? & ? & ? & ?).
      rewrite <- Hv. auto 10.
    + split; [discriminate|]. intros Hall. specialize (Hall _ _ _ Hin Ha). congruence.
Qed.

End InventoryV6.

Section RandomPort.
Import Network.

Lemma round_half_even_bounds (p s : Z) :
  0 <= p -> 1 <= s ->
  0 <= round_half_even p s /\ round_half_even p s * 2 ^ s <= p + 2 ^ (s - 1).
Proof.
  intros Hp Hs. unfold round_half_even.
  assert (Hpow : 2 ^ s = 2 * 2 ^ (s - 1)).
  { replace s with (Z.succ (s - 1)) at 1 by lia. apply Z.pow_succ_r. lia. }
  assert (Hhalf : 0 < 2 ^ (s - 1)) by (apply Z.pow_pos_nonneg; lia).
  assert (Hdm : p = 2 ^ s * (p / 2 ^ s) + p mod 2 ^ s) by (apply Z.div_mod; lia).
  assert (Hmod : 0 <= p mod 2 ^ s < 2 ^ s) by (apply Z.mod_pos_bound; lia).
  assert (Hq : 0 <= p / 2 ^ s) by (apply Z.div_pos; lia).
  set (q := p / 2 ^ s) in *. set (r := p mod 2 ^ s) in *.
  destruct (Z.ltb_spec r (2 ^ (s - 1))); [split; nia|].
  destruct (Z.ltb_spec (2 ^ (s - 1)) r); [split; nia|].
  destruct (Z.even q); split; nia.
Qed.

Lemma mul_mant_bounds (m n e : Z) :
  0 <= m < 2 ^ 53 -> 53 <= e -> 1 <= n ->
  0 <= mul_mant m n < n * 2 ^ e.
Proof.
  intros Hm He Hn. unfold mul_mant.
  assert (H53 : 2 ^ 53 <= 2 ^ e) by (apply Z.pow_le_mono_r; lia).
  assert (Hpe : m * n <= n * 2 ^ e - n) by nia.
  assert (Hp0 : 0 <= m * n) by nia.
  destruct (Z.ltb_spec (m * n) (2 ^ 53)) as [Hsmall|Hbig]; [lia|].
  set (p := m * n) in *. set (s := Z.log2 p - 52).
  assert (Hppos : 0 < p) by lia.
  destruct (Z.log2_spec p Hppos) as [Hlo Hhi].
  assert (Hlog : 53 <= Z.log2 p).
  { apply Z.log2_le_pow2; lia. }
  assert (Hs : 1 <= s) by (unfold s; lia).
  destruct (round_half_even_bounds p s Hp0 Hs) as [Hr0 Hr1].
  assert (Hsplit : 2 ^ Z.log2 p = 2 ^ 53 * 2 ^ (s - 1)).
  { rewrite <- Z.pow_add_r by lia. f_equal. unfold s. lia. }
  assert (Hhalf : 0 < 2 ^ (s - 1)) by (apply Z.pow_pos_nonneg; lia).
  assert (Hlt : 2 ^ (s - 1) < n) by nia.
  assert (Hs0 : 0 < 2 ^ s) by (apply Z.pow_pos_nonneg; lia).
  split; [nia|lia].
Qed.

Lemma trunc_product_bounds (r : unit_double) (n : Z) :
  unit_double_ok r -> 1 <= n ->
  0 <= trunc_product r n <= n - 1.
Proof.
  intros [Hm He] Hn. unfold trunc_product.
  rewrite Z.abs_eq by lia. rewrite (proj2 (Z.sgn_pos_iff n)) by lia.
  destruct (mul_mant_bounds (mant r) n (expo r) Hm (proj1 He) Hn) as [H0 H1].
  assert (Hpow : 0 < 2 ^ expo r) by (apply Z.pow_pos_nonneg; lia).
  rewrite Z.mul_1_l. split.
  - apply Z.div_pos; lia.
  - assert (mul_mant (mant r) n / 2 ^ expo r < n); [|lia].
    apply Z.div_lt_upper_bound; lia.
Qed.

Lemma to_int32_small (z : Z) : 0 <= z < 2 ^ 31 -> to_int32 z = z.
Proof.
  intros Hz. unfold to_int32. rewrite Z.mod_small by lia.
  destruct (Z.ltb_spec z (2 ^ 31)); lia.
Qed.

Lemma getRandomPort_known (K : Constants) (r : unit_double) (conf : gmap string jsval) :
  truthy (prop "remoteport" conf) = true ->
  getRandomPort K r conf = prop "remoteport" conf.
Proof. intros H. unfold getRandomPort. rewrite H. reflexivity. Qed.

Lemma getRandomPort_drawn (K : Constants) (r : unit_double) (conf : gmap string jsval) :
  unit_double_ok r -> 0 <= PORT_START K <= 65535 ->
  truthy (prop "remoteport" conf) = false ->
  exists p, getRandomPort K r conf = JNum p /\ PORT_START K <= p <= 65535.
Proof.
  intros Hr HK Hno. unfold getRandomPort. rewrite Hno.
  eexists. split; [reflexivity|].
  pose proof (trunc_product_bounds r (65536 - PORT_START K) Hr ltac:(lia)) as Hb.
  rewrite to_int32_small by lia. lia.
Qed.

End RandomPort.

(** ** Reading the configuration object *)

Section Props.

Lemma prop_insert_eq (k : string) (v : jsval) (o : gmap string jsval) :
  prop k (<[k := v]> o) = v.
Proof. unfold prop. rewrite lookup_insert_eq. reflexivity. Qed.

Lemma prop_insert_ne (k k' : string) (v : jsval) (o : gmap string jsval) :
  k ≠ k' -> prop k' (<[k := v]> o) = prop k' o.
Proof. intros Hne. unfold prop. rewrite lookup_insert_ne by exact Hne. reflexivity. Qed.

Lemma prop_extend (k : string) (dst src : gmap string jsval) :
  prop k (extend dst src) =
  match src !! k with
  | Some v => v
  | None => prop k dst
  end.
Proof.
  unfold prop, extend. rewrite lookup_union.
  destruct (src !! k), (dst !! k); reflexivity.
Qed.

Lemma prop_empty (k : string) : prop k ∅ = JUndefined.
Proof. unfold prop. rewrite lookup_empty. reflexivity. Qed.

End Props.

Ltac prop_simpl :=
  repeat first
    [ rewrite prop_insert_eq
    | rewrite prop_insert_ne by (intros ?; discriminate)
    | rewrite prop_empty ].

(** ** The UPnP probe *)

Section Probe.
Import Network Bma.
Variable K : Constants.

(** A probe that returns has filled exactly the four fields [remoteipv4],
    [remoteport], [port] and [ipv4], the two ports being the one drawn. *)
Lemma upnpConf_shape (noupnp : jsval) (r : unit_double) (gw : Gateway)
  (uc : gmap string jsval) :
  upnpConf K noupnp r gw = Ok uc ->
  exists publicIP privateIP : string,
    truthy noupnp = false
    /\ externalIp gw = Ok (JStr publicIP)
    /\ findGateway gw = Ok (JStr privateIP)
    /\ uc = <["ipv4" := if IPV4_REGEXP K privateIP then JStr privateIP else JNull]>
            (<["port" := getRandomPort K r ∅]>
            (<["remoteport" := getRandomPort K r ∅]>
            (<["remoteipv4" := if IPV4_REGEXP K publicIP then JStr publicIP else JNull]> ∅))).
Proof.
  unfold upnpConf. destruct (truthy noupnp); [discriminate|].
  destruct (externalIp gw) as [publicIP|]; [|discriminate]. simpl.
  destruct (portMapping gw _ _ 120) as [[]|]; [|discriminate]. simpl.
  destruct (findGateway gw) as [privateIP|]; [|discriminate]. simpl.
  destruct publicIP as [| | | | |pub]; try discriminate. simpl.
  destruct privateIP as [| | | | |priv]; try discriminate. simpl.
  intros [= <-]. exists pub, priv. repeat split; reflexivity.
Qed.

Lemma upnpResolve_success (E : Env) (noupnp : jsval) (uc : gmap string jsval) :
  upnpResolve K E noupnp = (true, uc) ->
  upnpConf K noupnp (probe_random E) (client E) = Ok uc.
Proof.
  unfold upnpResolve.
  destruct (upnpConf K noupnp (probe_random E) (client E)); intros [= <-]; reflexivity.
Qed.

Lemma upnpResolve_failure (E : Env) (noupnp : jsval) :
  fst (upnpResolve K E noupnp) = false ->
  upnpResolve K E noupnp = (false, ∅).
Proof.
  unfold upnpResolve.
  destruct (upnpConf K noupnp (probe_random E) (client E)); [discriminate|reflexivity].
Qed.

(** C10. When the three gateway requests of the probe succeed, [upnpConf]
    returns a configuration whose [remoteipv4] is the external IP reported
    by the gateway if it matches the IPv4 pattern and [null] otherwise, and
    whose [ipv4] is the local IP found through the gateway under the same
    test; in particular a probe that succeeds with an external IP that does
    not match returns, without raising, a configuration without remote
    IPv4. *)
Theorem upnpConf_filters_addresses :
  forall (noupnp : jsval) (r : unit_double) (gw : Gateway) (publicIP privateIP : string),
    truthy noupnp = false ->
    externalIp gw = Ok (JStr publicIP) ->
    portMapping gw (getRandomPort K r ∅) (getRandomPort K r ∅) 120 = Ok tt ->
    findGateway gw = Ok (JStr privateIP) ->
    exists uc,
      upnpConf K noupnp r gw = Ok uc
      /\ prop "remoteipv4" uc = (if IPV4_REGEXP K publicIP then JStr publicIP else JNull)
      /\ prop "ipv4" uc = (if IPV4_REGEXP K privateIP then JStr privateIP else JNull)
      /\ (IPV4_REGEXP K publicIP = false -> prop "remoteipv4" uc = JNull).
Proof.
  intros noupnp r gw publicIP privateIP Hno Hext Hmap Hgw.
  unfold upnpConf. rewrite Hno, Hext. simpl. rewrite Hmap. simpl. rewrite Hgw. simpl.
  eexists. split; [reflexivity|]. prop_simpl.
  split; [reflexivity|]. split; [reflexivity|]. intros ->. reflexivity.
Qed.

End Probe.

(** A probe that succeeds although the gateway's external address is not
    an IPv4: no error, and no remote IPv4. *)
Lemma upnpConf_filters_addresses_witness :
  exists uc,
    Network.upnpConf Samples.K0 JUndefined Samples.draw_20900 Samples.gateway_odd = Ok uc
    /\ prop "remoteipv4" uc = JNull
    /\ prop "ipv4" uc = JStr "192.168.1.10".
Proof.
  destruct (upnpConf_filters_addresses Samples.K0 JUndefined Samples.draw_20900
              Samples.gateway_odd "unknown" "192.168.1.10"
              eq_refl eq_refl eq_refl eq_refl) as (uc & H1 & H2 & H3 & H4).
  exists uc. split; [exact H1|]. split; [apply H4; reflexivity|exact H3].
Defined.

(** ** The resolver in autoconf mode *)

Section Resolver.
Import Network Bma Spec.
Variable K : Constants.

(** Autoconf with a successful probe: the closed form of the result. *)
Lemma autoconf_available (E : Env) (conf : gmap string jsval) (noupnp : jsval)
  (uc : gmap string jsval) :
  upnpResolve K E noupnp = (true, uc) ->
  networkReconfiguration K E conf true noupnp =
  let c := <["ipv6" := getBestLocalIPv6 (os E)]>
             (<["remoteipv6" := getBestLocalIPv6 (os E)]>
                (extend (default_values K conf) uc)) in
  if truthy (prop "ipv4" c) then <["upnp" := JBool true]> c
  else <["remotehost" := JNull]> (<["upnp" := JBool false]> c).
Proof.
  intros Hres. unfold networkReconfiguration. rewrite Hres.
  unfold upnp_available, waterfall, getUseUPnPOperations, getHostnameOperations, plain.
  simpl.
  set (c := <["ipv6" := _]> _).
  destruct (truthy (prop "ipv4" c)) eqn:Hv4; simpl.
  - rewrite prop_insert_ne by (intros ?; discriminate). rewrite Hv4. reflexivity.
  - rewrite prop_insert_ne by (intros ?; discriminate). rewrite Hv4. reflexivity.
Qed.

(** Autoconf with a failed probe: the closed form of the result. *)
Lemma autoconf_unavailable (E : Env) (conf : gmap string jsval) (noupnp : jsval) :
  fst (upnpResolve K E noupnp) = false ->
  networkReconfiguration K E conf true noupnp =
  let c := <["ipv6" := getBestLocalIPv6 (os E)]>
             (<["remoteipv6" := getBestLocalIPv6 (os E)]>
                (<["ipv4" := JStr (getBestLocalIPv4 (os E))]>
                   (<["upnp" := JBool false]> (default_values K conf)))) in
  let c := <["port" := getRandomPort K (port_random E) c]> c in
  let c := if truthy (prop "ipv4" c) then c else <["remotehost" := JNull]> c in
  <["remoteport" := prop "port" c]>
    (<["remoteipv6" := prop "ipv6" c]>
       (<["remoteipv4" := prop "ipv4" c]> c)).
Proof.
  intros Hres. unfold networkReconfiguration.
  rewrite (upnpResolve_failure K E noupnp Hres).
  unfold upnp_unavailable, waterfall, getLocalNetworkOperations,
    getHostnameOperations, mirror_local,
    plain.
  simpl.
  match goal with
  | |- context [negb (truthy ?v)] => destruct (truthy v) eqn:Hv4
  end; simpl; prop_simpl; reflexivity.
Qed.

Ltac lookup_simpl :=
  repeat first
    [ rewrite lookup_insert_eq
    | rewrite lookup_insert_ne by (intros ?; discriminate)
    | rewrite lookup_empty ].

(** The fields of the configuration after an autoconf resolution whose
    probe succeeded. *)
Lemma autoconf_available_fields :
  forall (E : Env) (conf : gmap string jsval) (noupnp : jsval)
         (uc : gmap string jsval),
    upnpResolve K E noupnp = (true, uc) ->
    let conf' := networkReconfiguration K E conf true noupnp in
    prop "remoteipv4" conf' = prop "remoteipv4" uc
    /\ (forall ext, externalIp (client E) = Ok (JStr ext) ->
                    IPV4_REGEXP K ext = true -> prop "remoteipv4" conf' = JStr ext)
    /\ prop "remoteport" conf' = prop "remoteport" uc
    /\ prop "remoteport" conf' = getRandomPort K (probe_random E) ∅
    /\ prop "port" conf' = getRandomPort K (probe_random E) ∅
    /\ prop "ipv4" conf' = prop "ipv4" uc
    /\ (truthy (prop "ipv4" uc) = true -> prop "upnp" conf' = JBool true)
    /\ prop "ipv6" conf' = getBestLocalIPv6 (os E)
    /\ prop "remoteipv6" conf' = getBestLocalIPv6 (os E).
Proof.
  intros E conf noupnp uc Hres conf'. subst conf'.
  rewrite (autoconf_available E conf noupnp uc Hres). cbv zeta.
  destruct (upnpConf_shape K _ _ _ _ (upnpResolve_success K E noupnp uc Hres))
    as (pub & priv & _ & Hext & _ & Huc).
  set (c := <["ipv6" := _]> _).
  assert (Hc4 : prop "ipv4" c = prop "ipv4" uc).
  { unfold c. prop_simpl. rewrite prop_extend. unfold prop. rewrite Huc.
    lookup_simpl. reflexivity. }
  assert (Hcr4 : prop "remoteipv4" c = prop "remoteipv4" uc).
  { unfold c. prop_simpl. rewrite prop_extend. unfold prop. rewrite Huc.
    lookup_simpl. reflexivity. }
  assert (Hcrp : prop "remoteport" c = prop "remoteport" uc).
  { unfold c. prop_simpl. rewrite prop_extend. unfold prop. rewrite Huc.
    lookup_simpl. reflexivity. }
  assert (Hcp : prop "port" c = prop "port" uc).
  { unfold c. prop_simpl. rewrite prop_extend. unfold prop. rewrite Huc.
    lookup_simpl. reflexivity. }
  assert (Hc6 : prop "ipv6" c = getBestLocalIPv6 (os E)) by (unfold c; prop_simpl; reflexivity).
  assert (Hcr6 : prop "remoteipv6" c = getBestLocalIPv6 (os E)) by (unfold c; prop_simpl; reflexivity).
  assert (Hurp : prop "remoteport" uc = getRandomPort K (probe_random E) ∅)
    by (rewrite Huc; prop_simpl; reflexivity).
  assert (Hup : prop "port" uc = getRandomPort K (probe_random E) ∅)
    by (rewrite Huc; prop_simpl; reflexivity).
  assert (Hur4 : forall ext, externalIp (client E) = Ok (JStr ext) ->
            IPV4_REGEXP K ext = true -> prop "remoteipv4" uc = JStr ext).
  { intros ext He Hm. rewrite Hext in He. injection He as ->.
    rewrite Huc. prop_simpl. rewrite Hm. reflexivity. }
  clearbody c. rewrite Hc4.
  destruct (truthy (prop "ipv4" uc)) eqn:Hv4; prop_simpl;
    repeat split; try congruence; intros; try discriminate; try reflexivity.
  - rewrite Hcr4. auto.
  - rewrite Hcr4. auto.
Qed.

(** C1. In an autoconf resolution whose UPnP probe succeeds, the resulting
    configuration takes [remoteipv4] and [remoteport] from the probe (the
    external IPv4 reported by the gateway when it is one, and the port
    drawn for the probe), [ipv6] and [remoteipv6] are both the best local
    IPv6 (possibly [null]), and [upnp] is [true] provided the probe
    supplied a local IPv4. *)
Theorem autoconf_adopts_probe :
  forall (E : Env) (conf : gmap string jsval) (noupnp : jsval)
         (uc : gmap string jsval),
    upnpResolve K E noupnp = (true, uc) ->
    let conf' := networkReconfiguration K E conf true noupnp in
    prop "remoteipv4" conf' = prop "remoteipv4" uc
    /\ (forall ext, externalIp (client E) = Ok (JStr ext) ->
                    IPV4_REGEXP K ext = true -> prop "remoteipv4" conf' = JStr ext)
    /\ prop "remoteport" conf' = prop "remoteport" uc
    /\ prop "remoteport" conf' = getRandomPort K (probe_random E) ∅
    /\ prop "port" conf' = getRandomPort K (probe_random E) ∅
    /\ prop "ipv4" conf' = prop "ipv4" uc
    /\ (truthy (prop "ipv4" uc) = true -> prop "upnp" conf' = JBool true)
    /\ prop "ipv6" conf' = getBestLocalIPv6 (os E)
    /\ prop "remoteipv6" conf' = getBestLocalIPv6 (os E).
Proof. exact autoconf_available_fields. Qed.

(** The fields of the configuration after an autoconf resolution whose
    probe failed. *)
Lemma autoconf_mirrors_local_fields :
  forall (E : Env) (conf : gmap string jsval) (noupnp : jsval),
    fst (upnpResolve K E noupnp) = false ->
    let conf' := networkReconfiguration K E conf true noupnp in
    prop "remoteipv4" conf' = prop "ipv4" conf'
    /\ prop "remoteipv6" conf' = prop "ipv6" conf'
    /\ prop "remoteport" conf' = prop "port" conf'
    /\ prop "upnp" conf' = JBool false
    /\ prop "ipv4" conf' = JStr (getBestLocalIPv4 (os E))
    /\ prop "ipv6" conf' = getBestLocalIPv6 (os E).
Proof.
  intros E conf noupnp Hres conf'. subst conf'.
  rewrite (autoconf_unavailable E conf noupnp Hres). cbv zeta.
  match goal with
  | |- context [if truthy ?v then _ else _] => destruct (truthy v)
  end; prop_simpl; repeat split; reflexivity.
Qed.

(** C2. In an autoconf resolution whose UPnP probe fails, the resulting
    configuration mirrors local into remote: [remoteipv4] is [ipv4],
    [remoteipv6] is [ipv6], [remoteport] is [port], and [upnp] is [false];
    the local values are the best local addresses. *)
Theorem autoconf_mirrors_local :
  forall (E : Env) (conf : gmap string jsval) (noupnp : jsval),
    fst (upnpResolve K E noupnp) = false ->
    let conf' := networkReconfiguration K E conf true noupnp in
    prop "remoteipv4" conf' = prop "ipv4" conf'
    /\ prop "remoteipv6" conf' = prop "ipv6" conf'
    /\ prop "remoteport" conf' = prop "port" conf'
    /\ prop "upnp" conf' = JBool false
    /\ prop "ipv4" conf' = JStr (getBestLocalIPv4 (os E))
    /\ prop "ipv6" conf' = getBestLocalIPv6 (os E).
Proof. exact autoconf_mirrors_local_fields. Qed.

Lemma prop_upnp_flags_ne (k : string) (program c : gmap string jsval) :
  "upnp" ≠ k -> prop k (upnp_flags program c) = prop k c.
Proof.
  intros Hk. unfold upnp_flags.
  destruct (is_true (prop "upnp" program)), (is_true (prop "noupnp" program)),
    (is_nullish (prop "upnp" c)); repeat rewrite prop_insert_ne by exact Hk;
    reflexivity.
Qed.

Lemma prop_upnp_flags (program c : gmap string jsval) :
  prop "upnp" (upnp_flags program c) =
  if is_true (prop "upnp" program) then JBool true
  else if is_true (prop "noupnp" program) then JBool false
  else if is_nullish (prop "upnp" c) then JBool true
  else prop "upnp" c.
Proof.
  unfold upnp_flags.
  destruct (is_true (prop "upnp" program)), (is_true (prop "noupnp" program)),
    (is_nullish (prop "upnp" c)); prop_simpl; reflexivity.
Qed.

Lemma is_true_truthy (v : jsval) : is_true v = true -> truthy v = true.
Proof. destruct v as [| |[]| | |]; simpl; congruence. Qed.

(** The same two outcomes seen from [onLoading], which applies the
    [--upnp] and [--noupnp] options after the resolution: with a successful
    probe the adopted values stand; with a failed probe the mirrored values
    stand and [upnp] stays [false] unless [--upnp] forces it. *)
Lemma onLoading_autoconf_available (E : Env) (conf program uc : gmap string jsval) :
  autoconfNet program (default_remotes (apply_options program conf)) = true ->
  upnpResolve K E (prop "noupnp" program) = (true, uc) ->
  let final := fst (onLoading K E conf program) in
  prop "remoteipv4" final = prop "remoteipv4" uc
  /\ prop "remoteport" final = prop "remoteport" uc
  /\ prop "ipv6" final = getBestLocalIPv6 (os E)
  /\ prop "remoteipv6" final = getBestLocalIPv6 (os E)
  /\ (truthy (prop "ipv4" uc) = true -> prop "upnp" final = JBool true).
Proof.
  intros Hauto Hres final. subst final. unfold onLoading. rewrite Hauto. simpl.
  destruct (autoconf_available_fields E (default_remotes (apply_options program conf))
              (prop "noupnp" program) uc Hres)
    as (H1 & _ & H2 & _ & _ & _ & H3 & H4 & H5).
  rewrite !prop_upnp_flags_ne by (intros ?; discriminate).
  repeat split; try assumption.
  intros Hv4. rewrite prop_upnp_flags, (H3 Hv4).
  destruct (upnpConf_shape K _ _ _ _ (upnpResolve_success K E _ uc Hres))
    as (_ & _ & Hno & _).
  destruct (is_true (prop "upnp" program)); [reflexivity|].
  destruct (is_true (prop "noupnp" program)) eqn:Hflag; [|reflexivity].
  apply is_true_truthy in Hflag. congruence.
Qed.

Lemma onLoading_autoconf_unavailable (E : Env) (conf program : gmap string jsval) :
  autoconfNet program (default_remotes (apply_options program conf)) = true ->
  fst (upnpResolve K E (prop "noupnp" program)) = false ->
  let final := fst (onLoading K E conf program) in
  prop "remoteipv4" final = prop "ipv4" final
  /\ prop "remoteipv6" final = prop "ipv6" final
  /\ prop "remoteport" final = prop "port" final
  /\ prop "upnp" final = JBool (is_true (prop "upnp" program)).
Proof.
  intros Hauto Hres final. subst final. unfold onLoading. rewrite Hauto. simpl.
  destruct (autoconf_mirrors_local_fields E (default_remotes (apply_options program conf))
              (prop "noupnp" program) Hres)
    as (H1 & H2 & H3 & H4 & _).
  rewrite !prop_upnp_flags_ne by (intros ?; discriminate).
  repeat split; try assumption.
  rewrite prop_upnp_flags, H4.
  destruct (is_true (prop "upnp" program)); [reflexivity|].
  destruct (is_true (prop "noupnp" program)); reflexivity.
Qed.

End Resolver.

(** The first testable scenario of the specification: external IP
    203.0.113.5 and probed port 20900. *)
Lemma autoconf_adopts_probe_witness :
  let conf' := Bma.networkReconfiguration Samples.K0 Samples.env_up ∅ true JUndefined in
  prop "remoteipv4" conf' = JStr "203.0.113.5"
  /\ prop "remoteport" conf' = JNum 20900
  /\ prop "upnp" conf' = JBool true
  /\ prop "ipv6" conf' = JStr "2001:db8::2"
  /\ prop "remoteipv6" conf' = JStr "2001:db8::2".
Proof.
  destruct (autoconf_adopts_probe Samples.K0 Samples.env_up ∅ JUndefined
              (snd (Bma.upnpResolve Samples.K0 Samples.env_up JUndefined)) eq_refl)
    as (_ & H1 & _ & H2 & _ & _ & H3 & H4 & H5).
  split; [apply H1; reflexivity|]. split; [exact H2|].
  split; [apply H3; reflexivity|]. split; [exact H4|exact H5].
Defined.

(** The second testable scenario: no gateway, local IPv4 192.168.1.10. *)
Lemma autoconf_mirrors_local_witness :
  let conf' := Bma.networkReconfiguration Samples.K0 Samples.env_down ∅ true JUndefined in
  prop "remoteipv4" conf' = JStr "192.168.1.10"
  /\ prop "remoteport" conf' = prop "port" conf'
  /\ prop "upnp" conf' = JBool false.
Proof.
  destruct (autoconf_mirrors_local Samples.K0 Samples.env_down ∅ JUndefined eq_refl)
    as (H1 & _ & H2 & H3 & H4 & _).
  split; [rewrite H1; exact H4|]. split; [exact H2|exact H3].
Defined.

(** ** Local port selection *)

Section PortSelection.
Import Network Bma Spec.
Variable K : Constants.

Lemma unit_double_ok_sample : unit_double_ok Samples.draw_20900.
Proof. unfold unit_double_ok. simpl. lia. Qed.

(** C8, as stated, fails: in an autoconf resolution whose probe fails, a
    node whose remote port is already known (here 80) gets that port as
    local port, whatever [Math.random()] returns; nothing is drawn and the
    port is below the floor of the range. *)
Lemma autoconf_port_not_drawn :
  fst (upnpResolve Samples.K0 Samples.env_down JUndefined) = false
  /\ (forall r : unit_double,
        prop "port" (networkReconfiguration Samples.K0 (Samples.env_down_drawing r)
                       Samples.conf_port80 true JUndefined) = JNum 80)
  /\ ~ (PORT_START Samples.K0 <= 80 <= 65535).
Proof.
  split; [reflexivity|]. split; [intros r; vm_compute; reflexivity|].
  simpl. lia.
Qed.

(** C8, amended. In autoconf mode local port selection is [getRandomPort]
    applied to the configuration: it returns the remote port already known
    whenever one is set, and otherwise draws a port that lies between
    [PORT_START] and 65535 (for a floor between 0 and 65535).  When UPnP is
    available the port drawn for the probe is adopted as local and remote
    port without a new draw.  When UPnP is unavailable the remote port has
    been defaulted to [DEFAULT_PORT] beforehand: the local port is the
    remote port already known, else [DEFAULT_PORT] when it is not zero, and
    is drawn only when neither is set. *)
Theorem autoconf_port_selection :
  forall (E : Env) (conf : gmap string jsval) (noupnp : jsval),
    let conf' := networkReconfiguration K E conf true noupnp in
    let known := js_or (prop "remoteport" conf) (JNum (DEFAULT_PORT K)) in
    nth_error (getLocalNetworkOperations K E true) 2
      = Some (plain (fun c => <["port" := getRandomPort K (port_random E) c]> c))
    /\ (forall r c, truthy (prop "remoteport" c) = true ->
                    getRandomPort K r c = prop "remoteport" c)
    /\ (forall r c, unit_double_ok r -> 0 <= PORT_START K <= 65535 ->
                    truthy (prop "remoteport" c) = false ->
                    exists p, getRandomPort K r c = JNum p /\ PORT_START K <= p <= 65535)
    /\ (fst (upnpResolve K E noupnp) = true ->
          prop "port" conf' = getRandomPort K (probe_random E) ∅
          /\ prop "remoteport" conf' = getRandomPort K (probe_random E) ∅)
    /\ (fst (upnpResolve K E noupnp) = true ->
          unit_double_ok (probe_random E) -> 0 <= PORT_START K <= 65535 ->
          exists p, prop "port" conf' = JNum p /\ PORT_START K <= p <= 65535)
    /\ (fst (upnpResolve K E noupnp) = false -> truthy known = true ->
          prop "port" conf' = known)
    /\ (fst (upnpResolve K E noupnp) = false -> truthy known = false ->
          unit_double_ok (port_random E) -> 0 <= PORT_START K <= 65535 ->
          exists p, prop "port" conf' = JNum p /\ PORT_START K <= p <= 65535).
Proof.
  intros E conf noupnp conf' known.
  assert (Havail : fst (upnpResolve K E noupnp) = true ->
            prop "port" conf' = getRandomPort K (probe_random E) ∅
            /\ prop "remoteport" conf' = getRandomPort K (probe_random E) ∅).
  { intros Hok. destruct (upnpResolve K E noupnp) as [ok uc] eqn:Hres.
    simpl in Hok. subst ok.
    destruct (autoconf_available_fields K E conf noupnp uc Hres)
      as (_ & _ & _ & Hrp & Hp & _). split; assumption. }
  assert (Hunav : fst (upnpResolve K E noupnp) = false ->
            exists c, prop "remoteport" c = known
                      /\ prop "port" conf' = getRandomPort K (port_random E) c).
  { intros Hko. subst conf'. rewrite (autoconf_unavailable K E conf noupnp Hko).
    cbv zeta. eexists. split; [|
      match goal with
      | |- context [if truthy ?v then _ else _] => destruct (truthy v)
      end; prop_simpl; reflexivity].
    unfold default_values. prop_simpl. reflexivity. }
  split; [reflexivity|].
  split; [intros r c; apply getRandomPort_known|].
  split; [intros r c; apply getRandomPort_drawn|].
  split; [exact Havail|].
  split.
  { intros Hok Hr HK. destruct (Havail Hok) as [-> _].
    apply getRandomPort_drawn; try assumption. rewrite prop_empty. reflexivity. }
  split.
  - intros Hko Hknown. destruct (Hunav Hko) as (c & Hc & ->).
    rewrite getRandomPort_known; rewrite Hc; [reflexivity|exact Hknown].
  - intros Hko Hknown Hr HK. destruct (Hunav Hko) as (c & Hc & ->).
    apply getRandomPort_drawn; try assumption. rewrite Hc. exact Hknown.
Qed.

End PortSelection.

(** A draw within the range, and its reuse after a successful probe. *)
Lemma autoconf_port_selection_witness :
  (exists p, Network.getRandomPort Samples.K0 Samples.draw_20900 ∅ = JNum p
             /\ 15000 <= p <= 65535)
  /\ prop "port" (Bma.networkReconfiguration Samples.K0 Samples.env_up ∅ true JUndefined)
     = Network.getRandomPort Samples.K0 Samples.draw_20900 ∅.
Proof.
  destruct (autoconf_port_selection Samples.K0 Samples.env_up ∅ JUndefined)
    as (_ & _ & Hdraw & Havail & _).
  split.
  - apply Hdraw; [exact unit_double_ok_sample|simpl; lia|reflexivity].
  - apply Havail. reflexivity.
Defined.

(** ** Failure semantics and final validation *)

Section Validation.
Import Network Bma Spec.
Variable K : Constants.

Lemma configuration_errors_cases (c : gmap string jsval) :
  configuration_errors c = Throw NO_LOCAL_INTERFACE
  \/ configuration_errors c = Throw NO_REMOTE_INTERFACE
  \/ configuration_errors c = Throw NO_REMOTE_PORT
  \/ configuration_errors c = Ok tt.
Proof.
  unfold configuration_errors.
  destruct (negb (truthy (prop "ipv4" c)) && negb (truthy (prop "ipv6" c))); [auto|].
  destruct (negb (truthy (prop "remoteipv4" c)) && negb (truthy (prop "remoteipv6" c))
            && negb (truthy (prop "remotehost" c))); [auto|].
  destruct (negb (truthy (prop "remoteport" c))); auto.
Qed.

(** C3. The final validation of [onLoading] answers each violated
    invariant with its own error: "No interface to listen to." when [ipv4]
    and [ipv6] are both absent, whatever the other fields; otherwise the
    "no remote interface" error when [remoteipv4], [remoteipv6] and
    [remotehost] are all absent; otherwise the "no remote port" error when
    [remoteport] is absent; otherwise no error.  The three messages are
    pairwise distinct. *)
Theorem validation_distinct_errors :
  forall (E : Env) (conf program : gmap string jsval),
    snd (onLoading K E conf program)
      = configuration_errors (fst (onLoading K E conf program))
    /\ (forall c, absent (prop "ipv4" c) = true -> absent (prop "ipv6" c) = true ->
          configuration_errors c = Throw "No interface to listen to.")
    /\ (forall c, absent (prop "ipv4" c) && absent (prop "ipv6" c) = false ->
          absent (prop "remoteipv4" c) = true -> absent (prop "remoteipv6" c) = true ->
          absent (prop "remotehost" c) = true ->
          configuration_errors c = Throw NO_REMOTE_INTERFACE)
    /\ (forall c, absent (prop "ipv4" c) && absent (prop "ipv6" c) = false ->
          absent (prop "remoteipv4" c) && absent (prop "remoteipv6" c)
            && absent (prop "remotehost" c) = false ->
          absent (prop "remoteport" c) = true ->
          configuration_errors c = Throw NO_REMOTE_PORT)
    /\ (forall c, absent (prop "ipv4" c) && absent (prop "ipv6" c) = false ->
          absent (prop "remoteipv4" c) && absent (prop "remoteipv6" c)
            && absent (prop "remotehost" c) = false ->
          absent (prop "remoteport" c) = false ->
          configuration_errors c = Ok tt)
    /\ NO_LOCAL_INTERFACE <> NO_REMOTE_INTERFACE
    /\ NO_LOCAL_INTERFACE <> NO_REMOTE_PORT
    /\ NO_REMOTE_INTERFACE <> NO_REMOTE_PORT.
Proof.
  intros E conf program. unfold absent, configuration_errors.
  split; [reflexivity|].
  split; [intros c -> ->; reflexivity|].
  split; [intros c -> -> -> ->; reflexivity|].
  split; [intros c -> -> ->; reflexivity|].
  split; [intros c -> -> ->; reflexivity|].
  repeat split; discriminate.
Qed.

(** C9. [upnpResolve] never propagates an error: it reports either
    [(false, {})] or the configuration of a probe that returned; whatever
    the probe throws, it reports [(false, {})], which sends
    [networkReconfiguration] to the UPnP-unavailable branch.  [onLoading]
    throws only through its final validation, with one of the three
    validation messages. *)
Theorem probe_failure_not_fatal :
  forall (E : Env) (conf program : gmap string jsval) (autoconf : bool)
         (noupnp : jsval),
    (upnpResolve K E noupnp = (false, ∅)
     \/ exists uc, upnpConf K noupnp (probe_random E) (client E) = Ok uc
                   /\ upnpResolve K E noupnp = (true, uc))
    /\ (forall e, upnpConf K noupnp (probe_random E) (client E) = Throw e ->
                  upnpResolve K E noupnp = (false, ∅))
    /\ (forall uc, upnpConf K noupnp (probe_random E) (client E) = Ok uc ->
                   upnpResolve K E noupnp = (true, uc))
    /\ (fst (upnpResolve K E noupnp) = false ->
          networkReconfiguration K E conf autoconf noupnp
          = upnp_unavailable K E autoconf (default_values K conf))
    /\ (forall e, snd (onLoading K E conf program) = Throw e ->
          configuration_errors (fst (onLoading K E conf program)) = Throw e
          /\ (e = NO_LOCAL_INTERFACE \/ e = NO_REMOTE_INTERFACE \/ e = NO_REMOTE_PORT)).
Proof.
  intros E conf program autoconf noupnp.
  split.
  { unfold upnpResolve.
    destruct (upnpConf K noupnp (probe_random E) (client E)) as [uc|e];
      [right; exists uc; split; reflexivity|left; reflexivity]. }
  split; [intros e He; unfold upnpResolve; rewrite He; reflexivity|].
  split; [intros uc He; unfold upnpResolve; rewrite He; reflexivity|].
  split.
  - intros Hko. unfold networkReconfiguration.
    rewrite (upnpResolve_failure K E noupnp Hko). reflexivity.
  - intros e He. change (snd (onLoading K E conf program))
      with (configuration_errors (fst (onLoading K E conf program))) in He.
    split; [exact He|].
    destruct (configuration_errors_cases (fst (onLoading K E conf program)))
      as [H|[H|[H|H]]]; rewrite H in He; try discriminate;
      injection He as <-; auto.
Qed.

End Validation.

(** A host without interface fails validation with the first message; a
    host with interfaces and a configuration without remote port passes it
    once loaded. *)
Lemma validation_distinct_errors_witness :
  snd (Bma.onLoading Samples.K0 Samples.env_none ∅ ∅) = Throw "No interface to listen to."
  /\ snd (Bma.onLoading Samples.K0 Samples.env_down ∅ ∅) = Ok tt.
Proof.
  destruct (validation_distinct_errors Samples.K0 Samples.env_none ∅ ∅)
    as (H1 & H2 & _).
  destruct (validation_distinct_errors Samples.K0 Samples.env_down ∅ ∅)
    as (G1 & _ & _ & _ & G2 & _).
  split.
  - rewrite H1. apply H2; reflexivity.
  - rewrite G1. apply G2; reflexivity.
Defined.

(** A gateway that times out: the probe is reported as failed and the
    loading still succeeds; disabling UPnP has the same effect. *)
Lemma probe_failure_not_fatal_witness :
  Bma.upnpResolve Samples.K0 Samples.env_down JUndefined = (false, ∅)
  /\ Bma.upnpResolve Samples.K0 Samples.env_up (JBool true) = (false, ∅)
  /\ snd (Bma.onLoading Samples.K0 Samples.env_down ∅ ∅) = Ok tt.
Proof.
  destruct (probe_failure_not_fatal Samples.K0 Samples.env_down ∅ ∅ true JUndefined)
    as (_ & H1 & _).
  destruct (probe_failure_not_fatal Samples.K0 Samples.env_up ∅ ∅ true (JBool true))
    as (_ & H2 & _).
  split; [apply (H1 "timeout"); reflexivity|].
  split; [apply (H2 "No UPnP"); reflexivity|].
  reflexivity.
Defined.

(** ** Listener lifecycle *)

Section Listeners.
Import Network Lifecycle.

Lemma open_from_lookup (bind_ok : nat -> bool) (l : list server) : forall i j,
  fst (openConnections_from bind_ok i l) !! j
  = open_entry bind_ok (i + j) <$> l !! j.
Proof.
  induction l as [|s l IH]; intros i j; simpl; [reflexivity|].
  specialize (IH (S i)).
  destruct (openConnections_from bind_ok (S i) l) as [rest evs] eqn:Hrest.
  simpl in IH.
  destruct j as [|j].
  - rewrite Nat.add_0_r. unfold open_entry. simpl.
    destruct (listening s); reflexivity.
  - replace (i + S j)%nat with (S (i + j))%nat by lia.
    destruct (listening s); simpl; apply IH.
Qed.

Lemma open_from_events (bind_ok : nat -> bool) (l : list server) : forall i e,
  e ∈ snd (openConnections_from bind_ok i l) <->
  exists j s, l !! j = Some s /\ listening s = false
              /\ e = EListen (i + j) (port s) (ip s).
Proof.
  induction l as [|s l IH]; intros i e; simpl.
  - split; [intros H; inversion H|intros (j & s & H & _); discriminate].
  - specialize (IH (S i) e).
    destruct (openConnections_from bind_ok (S i) l) as [rest evs] eqn:Hrest.
    simpl in IH.
    assert (Hshift : e ∈ evs <-> exists j s0, (s :: l) !! S j = Some s0
              /\ listening s0 = false /\ e = EListen (i + S j) (port s0) (ip s0)).
    { rewrite IH. split; intros (j & s0 & H1 & H2 & H3); exists j, s0;
        (split; [exact H1|split; [exact H2|]]); rewrite H3; f_equal; lia. }
    destruct (listening s) eqn:Hs; simpl.
    + rewrite Hshift. split.
      * intros (j & s0 & H). exists (S j), s0. exact H.
      * intros (j & s0 & H1 & H2 & H3). destruct j as [|j].
        -- simpl in H1. injection H1 as <-. congruence.
        -- exists j, s0. auto.
    + rewrite elem_of_cons, Hshift. split.
      * intros [->|(j & s0 & H)].
        -- exists 0%nat, s. rewrite Nat.add_0_r. auto.
        -- exists (S j), s0. exact H.
      * intros (j & s0 & H1 & H2 & H3). destruct j as [|j].
        -- simpl in H1. injection H1 as <-. left. rewrite H3, Nat.add_0_r. reflexivity.
        -- right. exists j, s0. auto.
Qed.

Lemma open_from_nodup (bind_ok : nat -> bool) (l : list server) : forall i,
  NoDup (map event_index (snd (openConnections_from bind_ok i l))).
Proof.
  induction l as [|s l IH]; intros i; simpl; [constructor|].
  specialize (IH (S i)).
  pose proof (open_from_events bind_ok l (S i)) as Hev.
  destruct (openConnections_from bind_ok (S i) l) as [rest evs] eqn:Hrest.
  simpl in *. destruct (listening s); simpl; [exact IH|].
  constructor; [|exact IH].
  intros Hin. apply list_elem_of_In, in_map_iff in Hin as (e & Hidx & He).
  apply list_elem_of_In, Hev in He as (j & s0 & _ & _ & ->). simpl in Hidx. lia.
Qed.

Lemma open_from_all_listening (bind_ok : nat -> bool) (l : list server) : forall i,
  Forall (fun s => listening s = true) l ->
  openConnections_from bind_ok i l = (l, []).
Proof.
  induction l as [|s l IH]; intros i Hall; simpl; [reflexivity|].
  inversion Hall as [|? ? Hs Hl]; subst.
  rewrite (IH (S i) Hl), Hs. reflexivity.
Qed.

Lemma socket_keys_elem (s : server) (socketId : nat) :
  socketId ∈ socket_keys s <-> is_Some (sockets s !! socketId).
Proof.
  unfold socket_keys. rewrite merge_sort_Permutation.
  rewrite list_elem_of_In, in_map_iff. split.
  - intros ([k st] & <- & Hin). apply list_elem_of_In, elem_of_map_to_list in Hin.
    simpl. eauto.
  - intros [st Hst]. exists (socketId, st). split; [reflexivity|].
    apply list_elem_of_In, elem_of_map_to_list. exact Hst.
Qed.

Lemma close_from_ok (l : list server) : forall i,
  Forall server_inv l ->
  closeConnections_from i l = (map close_entry l, close_events i l, Ok tt).
Proof.
  induction l as [|s l IH]; intros i Hinv; simpl; [reflexivity|].
  inversion Hinv as [|? ? [Hs _] Hl]; subst.
  rewrite (IH (S i) Hl). unfold close_entry, close_block.
  destruct (listening s) eqn:Hlis; simpl; [|reflexivity].
  rewrite (Hs eq_refl). rewrite <- app_assoc. reflexivity.
Qed.

Lemma close_from_none_listening (l : list server) : forall i,
  Forall (fun s => listening s = false) l ->
  closeConnections_from i l = (l, [], Ok tt).
Proof.
  induction l as [|s l IH]; intros i Hall; simpl; [reflexivity|].
  inversion Hall as [|? ? Hs Hl]; subst.
  rewrite (IH (S i) Hl), Hs. reflexivity.
Qed.

Lemma close_entry_closed (s : server) :
  server_inv s -> listening (close_entry s) = false /\ no_open_socket (close_entry s).
Proof.
  intros [_ Hno]. unfold close_entry.
  destruct (listening s) eqn:Hlis; simpl.
  - split; [reflexivity|]. intros k st. simpl. rewrite lookup_fmap.
    destruct (sockets s !! k); simpl; congruence.
  - split; [exact Hlis|exact (Hno eq_refl)].
Qed.

Lemma close_events_index (l : list server) : forall i e,
  e ∈ close_events i l -> (i <= event_index e)%nat.
Proof.
  induction l as [|s l IH]; intros i e; simpl; [intros H; inversion H|].
  rewrite elem_of_app. intros [He|He].
  - destruct (listening s); [|inversion He].
    unfold close_block in He. apply elem_of_app in He as [He|He].
    + apply list_elem_of_In, in_map_iff in He as (k & <- & _). simpl. lia.
    + apply list_elem_of_singleton in He as ->. simpl. lia.
  - specialize (IH (S i) e He). lia.
Qed.

Lemma close_block_index (i : nat) (s : server) (e : event) :
  e ∈ close_block i s -> event_index e = i.
Proof.
  unfold close_block. rewrite elem_of_app. intros [He|He].
  - apply list_elem_of_In, in_map_iff in He as (k & <- & _). reflexivity.
  - apply list_elem_of_singleton in He as ->. reflexivity.
Qed.

(** In the calls of a whole close, those about a listening server form one
    block, and no other call is about that server. *)
Lemma close_events_block (l : list server) : forall i j s,
  l !! j = Some s -> listening s = true ->
  exists pre post, close_events i l = pre ++ close_block (i + j) s ++ post
    /\ (forall e, e ∈ pre ++ post -> event_index e <> (i + j)%nat).
Proof.
  induction l as [|s0 l IH]; intros i j s Hj Hlis; [discriminate|].
  destruct j as [|j]; simpl in Hj.
  - injection Hj as ->. simpl. rewrite Hlis, Nat.add_0_r.
    exists [], (close_events (S i) l). split; [reflexivity|].
    intros e He. simpl in He. apply close_events_index in He. lia.
  - destruct (IH (S i) j s Hj Hlis) as (pre & post & Heq & Hidx).
    replace (i + S j)%nat with (S i + j)%nat by lia.
    exists ((if listening s0 then close_block i s0 else []) ++ pre), post.
    simpl. rewrite Heq, <- app_assoc. split; [reflexivity|].
    intros e He. rewrite <- app_assoc in He. apply elem_of_app in He as [He|He].
    + destruct (listening s0); [|inversion He].
      apply close_block_index in He. lia.
    + apply Hidx. exact He.
Qed.

Lemma open_entry_inv (bind_ok : nat -> bool) (i : nat) (s : server) :
  server_inv s -> server_inv (open_entry bind_ok i s).
Proof.
  intros Hinv. unfold open_entry. destruct (listening s) eqn:Hlis; [exact Hinv|].
  destruct Hinv as [_ H2]. split; simpl; [reflexivity|].
  intros _. exact (H2 Hlis).
Qed.

Lemma step_inv (l l' : list server) :
  step l l' -> Forall server_inv l -> Forall server_inv l'.
Proof.
  intros Hstep Hinv. destruct Hstep as [bind_ok l|l|l i s Hi Hlis|l i s k Hi].
  - apply Forall_lookup. intros j s' Hj.
    unfold openConnections in Hj. rewrite open_from_lookup in Hj.
    destruct (l !! j) as [s|] eqn:Hlj; [|discriminate].
    injection Hj as <-. apply open_entry_inv.
    exact (proj1 (Forall_lookup _ _) Hinv j s Hlj).
  - unfold closeConnections. rewrite (close_from_ok l 0 Hinv). simpl.
    apply Forall_lookup. intros j s' Hj. rewrite list_lookup_fmap in Hj.
    destruct (l !! j) as [s|] eqn:Hlj; [|discriminate].
    injection Hj as <-.
    destruct (close_entry_closed s (proj1 (Forall_lookup _ _) Hinv j s Hlj)) as [Hc Hn].
    split; [congruence|intros _; exact Hn].
  - apply Forall_insert; [exact Hinv|].
    destruct (proj1 (Forall_lookup _ _) Hinv i s Hi) as [H1 _].
    split; simpl; [exact H1|congruence].
  - apply Forall_insert; [exact Hinv|].
    destruct (proj1 (Forall_lookup _ _) Hinv i s Hi) as [H1 H2].
    split; simpl; [exact H1|].
    intros Hlis k' st Hk. simpl in Hk.
    apply lookup_delete_Some in Hk as [_ Hk]. exact (H2 Hlis k' st Hk).
Qed.

Lemma reachable_inv (interfaces : list (string * jsval)) (l : list server) :
  reachable interfaces l -> Forall server_inv l.
Proof.
  induction 1 as [a Ha|l l' _ IH Hstep].
  - unfold createServersAndListen in Ha.
    destruct (length (map new_server interfaces) =? 0)%nat; [discriminate|].
    injection Ha as <-. simpl. apply Forall_forall. intros s Hs.
    apply list_elem_of_In, in_map_iff in Hs as (iface & <- & _).
    split; simpl; [discriminate|]. intros _ k st Hk. simpl in Hk.
    rewrite lookup_empty in Hk. discriminate.
  - exact (step_inv l l' Hstep IH).
Qed.

Lemma open_connections_empty (s : server) :
  open_connections s = ∅ <-> no_open_socket s.
Proof.
  unfold open_connections, no_open_socket. rewrite map_empty. split.
  - intros H k st Hk. specialize (H k).
    apply map_lookup_filter_None in H as [H|H]; [congruence|].
    specialize (H st Hk). simpl in H. destruct st; [contradiction|reflexivity].
  - intros H k. apply map_lookup_filter_None.
    destruct (sockets s !! k) as [st|] eqn:Hk; [right|left; reflexivity].
    intros st' [= <-]. simpl. rewrite (H k st Hk). discriminate.
Qed.

Lemma sockets_after_closes (ks : list nat) (s : server) (k : nat) :
  sockets (fold_right on_socket_close s ks) !! k
  = if decide (k ∈ ks) then None else sockets s !! k.
Proof.
  induction ks as [|k0 ks IH]; simpl.
  - destruct (decide (k ∈ [])) as [H|_]; [inversion H|reflexivity].
  - destruct (decide (k0 = k)) as [->|Hne].
    + rewrite lookup_delete_eq.
      destruct (decide (k ∈ k :: ks)) as [_|H]; [reflexivity|].
      exfalso. apply H. left.
    + rewrite lookup_delete_ne by exact Hne. rewrite IH.
      destruct (decide (k ∈ ks)) as [Hin|Hnin];
        destruct (decide (k ∈ k0 :: ks)) as [Hin'|Hnin']; try reflexivity.
      * exfalso. apply Hnin'. right. exact Hin.
      * exfalso. apply elem_of_cons in Hin' as [->|Hin']; [congruence|contradiction].
Qed.

Lemma deliver_closes_empty (s : server) :
  no_open_socket s -> sockets (deliver_closes s) = ∅.
Proof.
  intros Hno. apply map_eq. intros k. unfold deliver_closes.
  rewrite sockets_after_closes, lookup_empty.
  destruct (decide (k ∈ pending_closes s)) as [_|Hnin]; [reflexivity|].
  destruct (sockets s !! k) as [st|] eqn:Hk; [|reflexivity].
  exfalso. apply Hnin. unfold pending_closes.
  apply list_elem_of_filter. rewrite (Hno k st Hk) in Hk. split; [exact Hk|].
  apply socket_keys_elem. eauto.
Qed.

Lemma closed_none_listening (l : list server) :
  Forall server_inv l -> Forall (fun s => listening s = false) (map close_entry l).
Proof.
  intros Hinv. apply Forall_forall. intros s' Hs'.
  apply list_elem_of_In, in_map_iff in Hs' as (s & <- & Hs).
  apply close_entry_closed.
  exact (proj1 (Forall_forall _ _) Hinv s (proj2 (list_elem_of_In _ _) Hs)).
Qed.

Lemma close_events_closed (l : list server) : forall i0 i,
  EClose i ∈ close_events i0 l ->
  exists j s, i = (i0 + j)%nat /\ l !! j = Some s /\ listening s = true.
Proof.
  induction l as [|s0 l IH]; intros i0 i; simpl; [intros H; inversion H|].
  rewrite elem_of_app. intros [H|H].
  - destruct (listening s0) eqn:Hs0; [|inversion H].
    pose proof (close_block_index _ _ _ H) as Hidx. simpl in Hidx.
    exists 0%nat, s0. split; [lia|]. auto.
  - destruct (IH (S i0) i H) as (j & s & -> & Hj & Hs).
    exists (S j), s. split; [lia|]. auto.
Qed.

(** C4. Opening binds exactly the servers that are not listening, each
    once, and leaves a listening server as it is; a second opening binds
    none of the servers bound by the first, and nothing at all when all are
    listening.  Closing closes exactly the listening servers, without
    error, and leaves the others as they are; a second closing makes no
    call, changes nothing and raises no error. *)
Theorem open_close_idempotent :
  forall (interfaces : list (string * jsval)) (l : list server)
         (bind1 bind2 : nat -> bool),
    reachable interfaces l ->
    let opened := fst (openConnections bind1 l) in
    let closed := fst (fst (closeConnections l)) in
    (forall e, e ∈ snd (openConnections bind1 l) <->
       exists i s, l !! i = Some s /\ listening s = false
                   /\ e = EListen i (port s) (ip s))
    /\ NoDup (map event_index (snd (openConnections bind1 l)))
    /\ (forall i s, l !! i = Some s -> listening s = true -> opened !! i = Some s)
    /\ (forall e, e ∈ snd (openConnections bind2 opened) ->
          exists i s, l !! i = Some s /\ listening s = false /\ bind1 i = false
                      /\ e = EListen i (port s) (ip s))
    /\ (Forall (fun s => listening s = true) opened ->
          openConnections bind2 opened = (opened, []))
    /\ snd (closeConnections l) = Ok tt
    /\ (forall i, EClose i ∈ snd (fst (closeConnections l)) <->
          exists s, l !! i = Some s /\ listening s = true)
    /\ (forall i s, l !! i = Some s -> listening s = false -> closed !! i = Some s)
    /\ closeConnections closed = (closed, [], Ok tt).
Proof.
  intros interfaces l bind1 bind2 Hreach opened closed.
  pose proof (reachable_inv interfaces l Hreach) as Hinv.
  assert (Hclose : closeConnections l = (map close_entry l, close_events 0 l, Ok tt))
    by (apply close_from_ok; exact Hinv).
  subst opened closed. rewrite Hclose. simpl. unfold openConnections.
  split; [intros e; apply (open_from_events bind1 l 0)|].
  split; [apply open_from_nodup|].
  split.
  { intros i s Hi Hlis. rewrite open_from_lookup, Hi. simpl.
    unfold open_entry. rewrite Hlis. reflexivity. }
  split.
  { intros e He. apply open_from_events in He as (j & s' & Hj & Hlis & ->).
    rewrite open_from_lookup in Hj.
    destruct (l !! j) as [s|] eqn:Hlj; [|discriminate].
    injection Hj as <-. simpl in *. unfold open_entry in *.
    destruct (listening s) eqn:Hs; [congruence|]. simpl in *.
    exists j, s. auto. }
  split; [apply open_from_all_listening|].
  split; [reflexivity|].
  split.
  { intros i. split.
    - intros He. destruct (close_events_closed l 0 i He) as (j & s & -> & Hj & Hs).
      exists s. auto.
    - intros (s & Hi & Hlis).
      destruct (close_events_block l 0 i s Hi Hlis) as (pre & post & -> & _).
      simpl. apply elem_of_app. right. apply elem_of_app. left.
      unfold close_block. apply elem_of_app. right. left. }
  split.
  { intros i s Hi Hlis. rewrite list_lookup_fmap, Hi. simpl.
    unfold close_entry. rewrite Hlis. reflexivity. }
  apply close_from_none_listening, closed_none_listening, Hinv.
Qed.

(** C5. On a listener set as the program can have it, [closeConnections]
    returns without error; for every listening server its calls are, in one
    block, the [destroy] of every socket of the registry followed by the
    [close] of the server, so that each tracked socket is destroyed before
    the listening socket is closed; afterwards no server is listening and
    no server tracks an open connection, whatever state the connections
    were in, and once the pending ['close'] events are delivered every
    registry is empty. *)
Theorem close_is_forceful_and_ordered :
  forall (interfaces : list (string * jsval)) (l : list server),
    reachable interfaces l ->
    let closed := fst (fst (closeConnections l)) in
    let calls := snd (fst (closeConnections l)) in
    snd (closeConnections l) = Ok tt
    /\ (forall i s, l !! i = Some s -> listening s = true ->
          exists pre post, calls = pre ++ close_block i s ++ post
            /\ (forall e, e ∈ pre ++ post -> event_index e <> i))
    /\ (forall i s socketId, l !! i = Some s -> listening s = true ->
          is_Some (sockets s !! socketId) ->
          exists e1 e2 e3, calls = e1 ++ EDestroy i socketId :: e2 ++ EClose i :: e3)
    /\ Forall (fun s => listening s = false /\ open_connections s = ∅) closed
    /\ Forall (fun s => sockets (deliver_closes s) = ∅) closed.
Proof.
  intros interfaces l Hreach closed calls.
  pose proof (reachable_inv interfaces l Hreach) as Hinv.
  assert (Hclose : closeConnections l = (map close_entry l, close_events 0 l, Ok tt))
    by (apply close_from_ok; exact Hinv).
  subst closed calls. rewrite Hclose. simpl.
  assert (Hclosed : forall s', s' ∈ map close_entry l ->
            listening s' = false /\ no_open_socket s').
  { intros s' Hs'. apply list_elem_of_In, in_map_iff in Hs' as (s & <- & Hs).
    apply close_entry_closed.
    exact (proj1 (Forall_forall _ _) Hinv s (proj2 (list_elem_of_In _ _) Hs)). }
  split; [reflexivity|].
  split; [intros i s Hi Hlis; exact (close_events_block l 0 i s Hi Hlis)|].
  split.
  { intros i s k Hi Hlis Hk.
    destruct (close_events_block l 0 i s Hi Hlis) as (pre & post & -> & _).
    simpl. apply socket_keys_elem, list_elem_of_In, in_split in Hk as (k1 & k2 & Hk).
    unfold close_block. rewrite Hk, map_app. simpl.
    exists (pre ++ map (EDestroy i) k1), (map (EDestroy i) k2), post.
    repeat (rewrite <- ?app_assoc; simpl). reflexivity. }
  split.
  - apply Forall_forall. intros s' Hs'. destruct (Hclosed s' Hs') as [H1 H2].
    split; [exact H1|]. apply open_connections_empty. exact H2.
  - apply Forall_forall. intros s' Hs'. destruct (Hclosed s' Hs') as [_ H2].
    apply deliver_closes_empty. exact H2.
Qed.

End Listeners.

(** Two listeners with two open connections on the first. *)
Lemma servers_created_reachable :
  Lifecycle.reachable Samples.interfaces0 Samples.servers_created.
Proof. exact (Lifecycle.reach_created Samples.interfaces0 Samples.api0 eq_refl). Defined.

Lemma servers_busy_reachable :
  Lifecycle.reachable Samples.interfaces0 Samples.servers_busy.
Proof.
  apply (Lifecycle.reach_step _ Samples.servers_one).
  - apply (Lifecycle.reach_step _ Samples.servers_open).
    + apply (Lifecycle.reach_step _ Samples.servers_created).
      * exact servers_created_reachable.
      * exact (Lifecycle.step_open (fun _ => true) Samples.servers_created).
    + exact (Lifecycle.step_connection Samples.servers_open 0 Samples.server0_open
               eq_refl eq_refl).
  - exact (Lifecycle.step_connection Samples.servers_one 0
             (Network.on_connection Samples.server0_open) eq_refl eq_refl).
Defined.

(** A second opening of two bound listeners binds nothing, even if the
    operating system would refuse; a second closing does nothing. *)
Lemma open_close_idempotent_witness :
  Network.openConnections (fun _ => false) Samples.servers_open = (Samples.servers_open, [])
  /\ (let closed := fst (fst (Network.closeConnections Samples.servers_busy)) in
      Network.closeConnections closed = (closed, [], Ok tt)).
Proof.
  destruct (open_close_idempotent Samples.interfaces0 Samples.servers_created
              (fun _ => true) (fun _ => false) servers_created_reachable)
    as (_ & _ & _ & _ & Hopen & _).
  destruct (open_close_idempotent Samples.interfaces0 Samples.servers_busy
              (fun _ => true) (fun _ => false) servers_busy_reachable)
    as (_ & _ & _ & _ & _ & _ & _ & _ & Hclose).
  split; [|exact Hclose].
  apply Hopen. repeat constructor.
Defined.

Lemma close_is_forceful_and_ordered_witness :
  snd (fst (Network.closeConnections Samples.servers_busy))
    = [Network.EDestroy 0 0; Network.EDestroy 0 1; Network.EClose 0; Network.EClose 1]
  /\ Forall (fun s => Network.listening s = false /\ Lifecycle.open_connections s = ∅)
       (fst (fst (Network.closeConnections Samples.servers_busy))).
Proof.
  destruct (close_is_forceful_and_ordered Samples.interfaces0 Samples.servers_busy
              servers_busy_reachable) as (_ & _ & _ & Hclosed & _).
  split; [vm_compute; reflexivity|exact Hclosed].
Defined.

(** ** More on the listener set *)

Section ListenersMore.
Import Network Lifecycle Registry.

Lemma open_from_interfaces (bind_ok : nat -> bool) (l : list server) : forall i,
  map interface_of (fst (openConnections_from bind_ok i l)) = map interface_of l.
Proof.
  induction l as [|s l IH]; intros i; simpl; [reflexivity|].
  specialize (IH (S i)).
  destruct (openConnections_from bind_ok (S i) l) as [rest evs].
  simpl in IH. destruct (listening s); simpl; rewrite IH; reflexivity.
Qed.

Lemma close_from_interfaces (l : list server) : forall i,
  map interface_of (fst (fst (closeConnections_from i l))) = map interface_of l.
Proof.
  induction l as [|s l IH]; intros i; simpl; [reflexivity|].
  specialize (IH (S i)).
  destruct (closeConnections_from (S i) l) as [[rest evs] r].
  simpl in IH. destruct (listening s); simpl.
  - destruct (errorPropagates s); simpl; [rewrite IH|]; reflexivity.
  - rewrite IH. reflexivity.
Qed.

Lemma insert_same_interface (l : list server) (i : nat) (s s' : server) :
  l !! i = Some s -> interface_of s' = interface_of s ->
  map interface_of (<[i := s']> l) = map interface_of l.
Proof.
  intros Hi Hs. change (map interface_of) with (fmap (M:=list) interface_of).
  rewrite list_fmap_insert, Hs. apply list_insert_id.
  rewrite list_lookup_fmap, Hi. reflexivity.
Qed.

Lemma step_interfaces (l l' : list server) :
  step l l' -> map interface_of l' = map interface_of l.
Proof.
  intros [bind_ok l0|l0|l0 i s Hi _|l0 i s k Hi].
  - apply open_from_interfaces.
  - apply close_from_interfaces.
  - apply (insert_same_interface l0 i s); [exact Hi|reflexivity].
  - apply (insert_same_interface l0 i s); [exact Hi|reflexivity].
Qed.

Lemma reachable_interfaces (interfaces : list (string * jsval)) (l : list server) :
  reachable interfaces l -> interfaces <> [] /\ map interface_of l = interfaces.
Proof.
  induction 1 as [a Ha|l l' _ [Hne IH] Hstep].
  - unfold createServersAndListen in Ha.
    destruct interfaces as [|x rest]; [discriminate|].
    split; [discriminate|].
    simpl in Ha. injection Ha as <-. simpl.
    f_equal; [destruct x; reflexivity|].
    induction rest as [|[a b] rest IHr]; [reflexivity|]. simpl. rewrite IHr. reflexivity.
  - split; [exact Hne|]. rewrite (step_interfaces l l' Hstep). exact IH.
Qed.

(** X1. Whatever happens to a listener set (openings, closings,
    connections, socket closes), it keeps exactly one server per configured
    interface, in the order of the configuration and with its address and
    port; the configuration it was created from was not empty. *)
Theorem listener_set_keeps_interfaces :
  forall (interfaces : list (string * jsval)) (l : list server),
    reachable interfaces l ->
    interfaces <> []
    /\ map interface_of l = interfaces
    /\ length l = length interfaces.
Proof.
  intros interfaces l Hreach.
  destruct (reachable_interfaces interfaces l Hreach) as [Hne Hmap].
  split; [exact Hne|]. split; [exact Hmap|].
  rewrite <- Hmap. rewrite length_map. reflexivity.
Qed.

Lemma open_entry_registry (bind_ok : nat -> bool) (i : nat) (s : server) :
  sockets (open_entry bind_ok i s) = sockets s
  /\ nextSocketId (open_entry bind_ok i s) = nextSocketId s
  /\ listening (open_entry bind_ok i s) = listening s || bind_ok i.
Proof. unfold open_entry. destruct (listening s) eqn:Hs; simpl; auto. Qed.

Lemma close_from_registry (l : list server) : forall i j s,
  l !! j = Some s ->
  exists s', fst (fst (closeConnections_from i l)) !! j = Some s'
    /\ dom (sockets s') = dom (sockets s)
    /\ nextSocketId s' = nextSocketId s.
Proof.
  induction l as [|s0 l IH]; intros i j s Hj; [discriminate|]. simpl.
  pose proof (IH (S i)) as IHi.
  destruct (closeConnections_from (S i) l) as [[rest evs] r]. simpl in IHi.
  destruct j as [|j]; simpl in Hj.
  - injection Hj as ->. destruct (listening s); simpl.
    + destruct (errorPropagates s); simpl; eexists; (split; [reflexivity|]);
        simpl; rewrite ?dom_fmap_L; auto.
    + eexists. split; [reflexivity|]. auto.
  - destruct (listening s0); simpl.
    + destruct (errorPropagates s0); simpl; [apply IHi; exact Hj|].
      exists s. auto.
    + apply IHi. exact Hj.
Qed.

Lemma step_ids_below (l l' : list server) :
  step l l' -> Forall ids_below l -> Forall ids_below l'.
Proof.
  intros Hstep Hids. destruct Hstep as [bind_ok l|l|l i s Hi Hlis|l i s k Hi].
  - apply Forall_lookup. intros j s' Hj.
    unfold openConnections in Hj. rewrite open_from_lookup in Hj.
    destruct (l !! j) as [s|] eqn:Hlj; [|discriminate]. injection Hj as <-.
    change (0 + j)%nat with j.
    destruct (open_entry_registry bind_ok j s) as (Hs & Hn & _).
    intros k Hk. rewrite Hs in Hk. rewrite Hn.
    exact (proj1 (Forall_lookup _ _) Hids j s Hlj k Hk).
  - apply Forall_lookup. intros j s' Hj.
    assert (Hlen : length (fst (fst (closeConnections l))) = length l).
    { pose proof (close_from_interfaces l 0) as H.
      apply (f_equal length) in H. rewrite !length_map in H. exact H. }
    destruct (l !! j) as [s|] eqn:Hlj.
    + destruct (close_from_registry l 0 j s Hlj) as (s2 & Hs2 & Hdom & Hn).
      unfold closeConnections in Hj. rewrite Hs2 in Hj. injection Hj as <-.
      intros k Hk. rewrite Hn. apply (proj1 (Forall_lookup _ _) Hids j s Hlj).
      apply elem_of_dom. rewrite <- Hdom. apply elem_of_dom. exact Hk.
    + apply lookup_ge_None in Hlj. apply lookup_lt_Some in Hj. lia.
  - apply Forall_insert; [exact Hids|].
    pose proof (proj1 (Forall_lookup _ _) Hids i s Hi) as Hs.
    intros k Hk. simpl in *. apply lookup_insert_is_Some in Hk as [<-|[_ Hk]]; [lia|].
    specialize (Hs k Hk). lia.
  - apply Forall_insert; [exact Hids|].
    pose proof (proj1 (Forall_lookup _ _) Hids i s Hi) as Hs.
    intros k' Hk. simpl in *. destruct Hk as [st Hk].
    apply lookup_delete_Some in Hk as [_ Hk]. apply Hs. eauto.
Qed.

Lemma reachable_ids_below (interfaces : list (string * jsval)) (l : list server) :
  reachable interfaces l -> Forall ids_below l.
Proof.
  induction 1 as [a Ha|l l' _ IH Hstep].
  - unfold createServersAndListen in Ha.
    destruct (length (map new_server interfaces) =? 0)%nat; [discriminate|].
    injection Ha as <-. simpl. apply Forall_forall. intros s Hs.
    apply list_elem_of_In, in_map_iff in Hs as (iface & <- & _).
    intros k [st Hk]. simpl in Hk. rewrite lookup_empty in Hk. discriminate.
  - exact (step_ids_below l l' Hstep IH).
Qed.

(** X2. A socket id is never reused: in every listener set the program can
    have, each registered id is below the counter of its server, so the
    registration of a new connection takes a free id, keeps every entry
    already registered and makes the registry grow by exactly one. *)
Theorem socket_ids_are_fresh :
  forall (interfaces : list (string * jsval)) (l : list server) (i : nat) (s : server),
    reachable interfaces l ->
    l !! i = Some s ->
    ids_below s
    /\ sockets s !! nextSocketId s = None
    /\ size (sockets (on_connection s)) = S (size (sockets s))
    /\ (forall k st, sockets s !! k = Some st -> sockets (on_connection s) !! k = Some st).
Proof.
  intros interfaces l i s Hreach Hi.
  pose proof (proj1 (Forall_lookup _ _) (reachable_ids_below interfaces l Hreach) i s Hi)
    as Hids.
  assert (Hfree : sockets s !! nextSocketId s = None).
  { destruct (sockets s !! nextSocketId s) as [st|] eqn:Hk; [|reflexivity].
    assert (nextSocketId s < nextSocketId s)%nat by (apply Hids; eauto). lia. }
  split; [exact Hids|]. split; [exact Hfree|]. split.
  - simpl. apply map_size_insert_None. exact Hfree.
  - intros k st Hk. simpl. rewrite lookup_insert_ne; [exact Hk|].
    intros <-. congruence.
Qed.

(** X3. Neither [openConnections] nor [closeConnections] adds or removes a
    registry entry or moves the id counter: opening leaves the registry as
    it is and closing keeps its keys (it only marks sockets destroyed).
    Entries come and go with the connection and socket close events only. *)
Theorem open_close_keep_registry_keys :
  forall (l : list server) (bind_ok : nat -> bool) (i : nat) (s : server),
    l !! i = Some s ->
    (exists s1, fst (openConnections bind_ok l) !! i = Some s1
                /\ sockets s1 = sockets s /\ nextSocketId s1 = nextSocketId s)
    /\ (exists s2, fst (fst (closeConnections l)) !! i = Some s2
                   /\ dom (sockets s2) = dom (sockets s)
                   /\ nextSocketId s2 = nextSocketId s).
Proof.
  intros l bind_ok i s Hi. split.
  - unfold openConnections. rewrite open_from_lookup, Hi. simpl.
    destruct (open_entry_registry bind_ok i s) as (H1 & H2 & _). eauto.
  - exact (close_from_registry l 0 i s Hi).
Qed.

(** X4. A refused bind stays local to its interface: after
    [openConnections] a server is listening exactly when it was listening
    before or its own [listen] was accepted, whatever happened to the
    others; two runs that agree on the bind of one interface leave its
    server in the same state. *)
Theorem bind_failure_is_isolated :
  forall (l : list server) (bind1 bind2 : nat -> bool) (i : nat) (s : server),
    l !! i = Some s ->
    (exists s1, fst (openConnections bind1 l) !! i = Some s1
                /\ listening s1 = listening s || bind1 i)
    /\ (bind1 i = bind2 i ->
        fst (openConnections bind1 l) !! i = fst (openConnections bind2 l) !! i)
    /\ length (fst (openConnections bind1 l)) = length l.
Proof.
  intros l bind1 bind2 i s Hi. unfold openConnections.
  rewrite !open_from_lookup, Hi. simpl. split.
  - destruct (open_entry_registry bind1 i s) as (_ & _ & H). eauto.
  - split.
    + intros Hb. unfold open_entry. rewrite Hb. reflexivity.
    + pose proof (open_from_interfaces bind1 l 0) as H.
      apply (f_equal length) in H. rewrite !length_map in H. exact H.
Qed.

Lemma existsb_eqb_elem (x : string) (l : list string) :
  existsb (String.eqb x) l = true <-> x ∈ l.
Proof.
  rewrite existsb_exists, list_elem_of_In. split.
  - intros (y & Hy & Heq). apply String.eqb_eq in Heq. subst. exact Hy.
  - intros Hx. exists x. split; [exact Hx|apply String.eqb_refl].
Qed.

(** X5. [createServersAndListen] fails exactly when it is given no
    interface.  Otherwise it creates one server per interface, not
    listening and tracking no socket, and the DDOS whitelist is the list of
    the interface addresses, with 127.0.0.1 appended only when it is not
    already one of them: the loopback address is always whitelisted and
    never listed twice by the function. *)
Theorem createServersAndListen_outcome :
  forall interfaces : list (string * jsval),
    (interfaces = []
     /\ createServersAndListen interfaces
        = Throw "Duniter does not have any interface to listen to.")
    \/ (interfaces <> []
        /\ exists a, createServersAndListen interfaces = Ok a
           /\ servers a = map new_server interfaces
           /\ Forall (fun s => listening s = false /\ sockets s = ∅) (servers a)
           /\ "127.0.0.1" ∈ ddos_whitelist a
           /\ (forall x, x ∈ map fst interfaces -> x ∈ ddos_whitelist a)
           /\ (ddos_whitelist a = map fst interfaces
               \/ (("127.0.0.1" ∉ map fst interfaces)
                   /\ ddos_whitelist a = (map fst interfaces ++ ["127.0.0.1"])))).
Proof.
  intros interfaces. destruct interfaces as [|x rest]; [left; split; reflexivity|].
  right. split; [discriminate|]. unfold createServersAndListen.
  set (ips := map fst (x :: rest)).
  change (length (map new_server (x :: rest)) =? 0)%nat with false. cbv iota.
  eexists. split; [reflexivity|]. cbn [servers ddos_whitelist].
  split; [reflexivity|]. split.
  { apply Forall_forall. intros s Hs.
    apply list_elem_of_In, in_map_iff in Hs as (iface & <- & _). split; reflexivity. }
  destruct (existsb (String.eqb "127.0.0.1") ips) eqn:Hex.
  - apply existsb_eqb_elem in Hex. split; [exact Hex|].
    split; [auto|]. left. reflexivity.
  - assert (Hnot : "127.0.0.1" ∉ ips).
    { intros Hin. apply existsb_eqb_elem in Hin. congruence. }
    split; [apply elem_of_app; right; left|].
    split; [intros y Hy; apply elem_of_app; left; exact Hy|].
    right. split; [exact Hnot|reflexivity].
Qed.

End ListenersMore.

Lemma socket_ids_are_fresh_witness :
  Network.sockets (Network.on_connection (Network.on_connection Samples.server0_open))
    !! 2%nat = None
  /\ size (Network.sockets (Network.on_connection
             (Network.on_connection (Network.on_connection Samples.server0_open))))
     = 3%nat.
Proof.
  destruct (socket_ids_are_fresh Samples.interfaces0 Samples.servers_busy 0
              (Network.on_connection (Network.on_connection Samples.server0_open))
              servers_busy_reachable eq_refl) as (_ & Hfree & Hsize & _).
  split; [exact Hfree|]. rewrite Hsize. reflexivity.
Defined.

Lemma listener_set_keeps_interfaces_witness :
  map Registry.interface_of Samples.servers_busy = Samples.interfaces0.
Proof.
  destruct (listener_set_keeps_interfaces Samples.interfaces0 Samples.servers_busy
              servers_busy_reachable) as (_ & H & _).
  exact H.
Defined.

Lemma open_close_keep_registry_keys_witness :
  exists s2, fst (fst (Network.closeConnections Samples.servers_busy)) !! 0%nat = Some s2
    /\ dom (Network.sockets s2)
       = dom (Network.sockets
                (Network.on_connection (Network.on_connection Samples.server0_open))).
Proof.
  destruct (open_close_keep_registry_keys Samples.servers_busy (fun _ => true) 0
              (Network.on_connection (Network.on_connection Samples.server0_open))
              eq_refl) as (_ & s2 & H1 & H2 & _).
  exists s2. split; assumption.
Defined.

(** The first interface is refused, the second is bound all the same. *)
Lemma bind_failure_is_isolated_witness :
  exists s1, fst (Network.openConnections (fun i => negb (i =? 0)%nat)
                    Samples.servers_created) !! 1%nat = Some s1
    /\ Network.listening s1 = true.
Proof.
  destruct (bind_failure_is_isolated Samples.servers_created
              (fun i => negb (i =? 0)%nat) (fun _ => true) 1
              (Network.new_server ("::1", JNum 10901)) eq_refl)
    as ((s1 & H1 & H2) & _).
  exists s1. split; [exact H1|exact H2].
Defined.

(** ** More on configuration loading *)

Section LoadingMore.
Import Network Bma Spec.
Variable K : Constants.

Lemma configuration_errors_upnp_flags (program c : gmap string jsval) :
  configuration_errors (upnp_flags program c) = configuration_errors c.
Proof.
  unfold configuration_errors.
  rewrite !prop_upnp_flags_ne by (intros ?; discriminate). reflexivity.
Qed.

Lemma autoconfNet_false (program c : gmap string jsval) :
  autoconfNet program c = false ->
  truthy (prop "autoconf" program) = false
  /\ truthy (prop "ipv4" c) || truthy (prop "ipv6" c) = true
  /\ truthy (prop "remoteipv4" c) || truthy (prop "remoteipv6" c)
     || truthy (prop "remotehost" c) = true
  /\ truthy (prop "port" c) = true
  /\ truthy (prop "remoteport" c) = true.
Proof.
  unfold autoconfNet. intros H.
  apply orb_false_iff in H as [H H4]. apply orb_false_iff in H as [H H3].
  apply orb_false_iff in H as [H1 H2].
  apply negb_false_iff in H2, H3, H4. apply andb_true_iff in H4 as [H4 H5].
  auto.
Qed.

(** X6. A configuration that is complete once the options are applied and
    the remote fields defaulted, loaded without [--autoconf], is loaded
    without any probe, draw or interface query: [onLoading] returns without
    error, its result does not depend on the environment, and apart from
    [upnp] every field is the one of the options and defaults.  So
    [onLoading] can only throw after having run the network
    autoconfiguration. *)
Theorem onLoading_complete_configuration :
  forall (E : Env) (conf program : gmap string jsval),
    autoconfNet program (default_remotes (apply_options program conf)) = false ->
    snd (onLoading K E conf program) = Ok tt
    /\ fst (onLoading K E conf program)
       = upnp_flags program (default_remotes (apply_options program conf))
    /\ (forall (K' : Constants) (E' : Env),
          onLoading K' E' conf program = onLoading K E conf program)
    /\ (forall k, "upnp" ≠ k ->
          prop k (fst (onLoading K E conf program))
          = prop k (default_remotes (apply_options program conf))).
Proof.
  intros E conf program Hauto.
  assert (Hsame : forall K' E', onLoading K' E' conf program
            = (upnp_flags program (default_remotes (apply_options program conf)),
               configuration_errors
                 (upnp_flags program (default_remotes (apply_options program conf))))).
  { intros K' E'. unfold onLoading. rewrite Hauto. reflexivity. }
  rewrite (Hsame K E). simpl.
  destruct (autoconfNet_false _ _ Hauto) as (_ & H1 & H2 & _ & H4).
  split.
  - rewrite configuration_errors_upnp_flags. unfold configuration_errors.
    rewrite <- !negb_orb, H1, H2, H4. reflexivity.
  - split; [reflexivity|]. split.
    + intros K' E'. apply Hsame.
    + intros k Hk. apply prop_upnp_flags_ne. exact Hk.
Qed.

Lemma js_or_truthy (v : jsval) (d : Z) :
  d <> 0 -> truthy (js_or v (JNum d)) = true.
Proof.
  intros Hd. unfold js_or. destruct (truthy v) eqn:Hv; [exact Hv|].
  simpl. destruct (Z.eqb_spec d 0); [contradiction|reflexivity].
Qed.

Lemma autoconf_unavailable_port (E : Env) (conf : gmap string jsval) (noupnp : jsval) :
  fst (upnpResolve K E noupnp) = false ->
  exists c, prop "remoteport" c = js_or (prop "remoteport" conf) (JNum (DEFAULT_PORT K))
    /\ prop "port" (networkReconfiguration K E conf true noupnp)
       = getRandomPort K (port_random E) c.
Proof.
  intros Hko. rewrite (autoconf_unavailable K E conf noupnp Hko). cbv zeta.
  eexists. split; [|
    match goal with
    | |- context [if truthy ?v then _ else _] => destruct (truthy v)
    end; prop_simpl; reflexivity].
  unfold default_values. prop_simpl. reflexivity.
Qed.

(** X7. Loading with autoconfiguration on a host without usable gateway
    succeeds exactly when the host has a local address: when the best local
    IPv4 is not empty or a best local IPv6 exists, [onLoading] returns
    without error; otherwise it throws "No interface to listen to.", never
    one of the two other errors (for a non-zero [DEFAULT_PORT]). *)
Theorem onLoading_autoconf_without_gateway :
  forall (E : Env) (conf program : gmap string jsval),
    autoconfNet program (default_remotes (apply_options program conf)) = true ->
    fst (upnpResolve K E (prop "noupnp" program)) = false ->
    DEFAULT_PORT K <> 0 ->
    snd (onLoading K E conf program)
    = if negb (String.eqb (getBestLocalIPv4 (os E)) "")
         || truthy (getBestLocalIPv6 (os E))
      then Ok tt else Throw NO_LOCAL_INTERFACE.
Proof.
  intros E conf program Hauto Hko Hdef.
  unfold onLoading. rewrite Hauto. cbn [fst snd].
  rewrite configuration_errors_upnp_flags.
  set (c0 := default_remotes (apply_options program conf)).
  destruct (autoconf_mirrors_local_fields K E c0 (prop "noupnp" program) Hko)
    as (H1 & H2 & H3 & _ & H4 & H5).
  destruct (autoconf_unavailable_port E c0 (prop "noupnp" program) Hko)
    as (c & Hc & Hport).
  assert (Hp : truthy (prop "port" (networkReconfiguration K E c0 true (prop "noupnp" program)))
               = true).
  { rewrite Hport, getRandomPort_known; rewrite Hc; apply js_or_truthy; exact Hdef. }
  unfold configuration_errors. rewrite H1, H2, H3, H4, H5, Hp. simpl.
  destruct (String.eqb (getBestLocalIPv4 (os E)) ""); simpl;
    destruct (truthy (getBestLocalIPv6 (os E))); reflexivity.
Qed.

Ltac lookup_inserts :=
  repeat first
    [ rewrite lookup_insert_eq
    | rewrite lookup_insert_ne by (intros ?; discriminate)
    | rewrite lookup_empty ].

Lemma autoconf_available_core (E : Env) (conf : gmap string jsval)
  (noupnp : jsval) (uc : gmap string jsval) :
  upnpResolve K E noupnp = (true, uc) ->
  exists c, prop "ipv4" c = prop "ipv4" uc
    /\ prop "remotehost" c = prop "remotehost" conf
    /\ networkReconfiguration K E conf true noupnp
       = if truthy (prop "ipv4" c) then <["upnp" := JBool true]> c
         else <["remotehost" := JNull]> (<["upnp" := JBool false]> c).
Proof.
  intros Hres.
  destruct (upnpConf_shape K _ _ _ _ (upnpResolve_success K E noupnp uc Hres))
    as (pub & priv & _ & _ & _ & Huc).
  rewrite (autoconf_available K E conf noupnp uc Hres). cbv zeta.
  eexists. split; [|split; [|reflexivity]].
  - prop_simpl. rewrite prop_extend. unfold prop. rewrite Huc.
    lookup_inserts. reflexivity.
  - prop_simpl. rewrite prop_extend.
    assert (Hnone : uc !! "remotehost" = None) by (rewrite Huc; lookup_inserts; reflexivity).
    rewrite Hnone. unfold default_values. prop_simpl. reflexivity.
Qed.

Lemma autoconf_available_remotehost (E : Env) (conf : gmap string jsval)
  (noupnp : jsval) (uc : gmap string jsval) :
  upnpResolve K E noupnp = (true, uc) ->
  prop "remotehost" (networkReconfiguration K E conf true noupnp)
  = if truthy (prop "ipv4" uc) then prop "remotehost" conf else JNull.
Proof.
  intros Hres.
  destruct (autoconf_available_core E conf noupnp uc Hres) as (c & H4 & Hh & ->).
  rewrite H4. destruct (truthy (prop "ipv4" uc)); prop_simpl; [exact Hh|reflexivity].
Qed.

(** X8. Loading with autoconfiguration behind a gateway that answers the
    probe: [onLoading] throws "No interface to listen to." when the probe
    gave no local IPv4 and there is no best local IPv6; otherwise it throws
    "No interface for remote contact." when the external address is not an
    IPv4, there is no best local IPv6 and no remote host is configured (or
    the probe gave no local IPv4); otherwise it returns without error.  A
    probe that succeeds can thus make the loading fail where a failed probe
    would not. *)
Theorem onLoading_autoconf_behind_gateway :
  forall (E : Env) (conf program uc : gmap string jsval),
    autoconfNet program (default_remotes (apply_options program conf)) = true ->
    upnpResolve K E (prop "noupnp" program) = (true, uc) ->
    unit_double_ok (probe_random E) ->
    1 <= PORT_START K <= 65535 ->
    snd (onLoading K E conf program)
    = if negb (truthy (prop "ipv4" uc) || truthy (getBestLocalIPv6 (os E)))
      then Throw NO_LOCAL_INTERFACE
      else if negb (truthy (prop "remoteipv4" uc)
                    || truthy (getBestLocalIPv6 (os E))
                    || (truthy (prop "ipv4" uc)
                        && truthy (prop "remotehost"
                                     (default_remotes (apply_options program conf)))))
      then Throw NO_REMOTE_INTERFACE
      else Ok tt.
Proof.
  intros E conf program uc Hauto Hres Hr HK.
  unfold onLoading. rewrite Hauto. cbn [fst snd].
  rewrite configuration_errors_upnp_flags.
  set (c0 := default_remotes (apply_options program conf)).
  destruct (autoconf_available_fields K E c0 (prop "noupnp" program) uc Hres)
    as (H1 & _ & _ & H2 & _ & H4 & _ & H5 & H6).
  pose proof (autoconf_available_remotehost E c0 (prop "noupnp" program) uc Hres) as Hh.
  destruct (getRandomPort_drawn K (probe_random E) ∅ Hr ltac:(lia)
              ltac:(rewrite prop_empty; reflexivity)) as (p & Hp & Hrange).
  unfold configuration_errors. rewrite H1, H2, H4, H5, H6, Hh, Hp.
  assert (Hpt : truthy (JNum p) = true).
  { simpl. destruct (Z.eqb_spec p 0); [lia|reflexivity]. }
  rewrite Hpt.
  destruct (truthy (prop "ipv4" uc)), (truthy (getBestLocalIPv6 (os E))),
    (truthy (prop "remoteipv4" uc)), (truthy (prop "remotehost" c0)); reflexivity.
Qed.

Lemma networkReconfiguration_autoconf_upnp (E : Env) (conf : gmap string jsval)
  (noupnp : jsval) :
  prop "upnp" (networkReconfiguration K E conf true noupnp)
  = JBool (fst (upnpResolve K E noupnp)
           && truthy (prop "ipv4" (snd (upnpResolve K E noupnp)))).
Proof.
  destruct (upnpResolve K E noupnp) as [[|] uc] eqn:Hres; simpl.
  - destruct (autoconf_available_core E conf noupnp uc Hres) as (c & H4 & _ & ->).
    rewrite H4. destruct (truthy (prop "ipv4" uc)); prop_simpl; reflexivity.
  - assert (Hko : fst (upnpResolve K E noupnp) = false) by (rewrite Hres; reflexivity).
    destruct (autoconf_mirrors_local_fields K E conf noupnp Hko) as (_ & _ & _ & H & _).
    exact H.
Qed.

(** X9. The value of [upnp] after loading, in every case: [true] with
    [--upnp]; otherwise [false] with [--noupnp]; otherwise, when the network
    autoconfiguration ran, [true] exactly when the probe succeeded and gave
    a local IPv4; otherwise the configured value, [true] standing for a
    missing one.  It is never left undefined. *)
Theorem onLoading_upnp_value :
  forall (E : Env) (conf program : gmap string jsval),
    let c0 := default_remotes (apply_options program conf) in
    let probe := upnpResolve K E (prop "noupnp" program) in
    prop "upnp" (fst (onLoading K E conf program))
    = (if is_true (prop "upnp" program) then JBool true
       else if is_true (prop "noupnp" program) then JBool false
       else if autoconfNet program c0
            then JBool (fst probe && truthy (prop "ipv4" (snd probe)))
       else if is_nullish (prop "upnp" c0) then JBool true
       else prop "upnp" c0)
    /\ is_nullish (prop "upnp" (fst (onLoading K E conf program))) = false.
Proof.
  intros E conf program c0 probe.
  assert (Heq : prop "upnp" (fst (onLoading K E conf program))
    = (if is_true (prop "upnp" program) then JBool true
       else if is_true (prop "noupnp" program) then JBool false
       else if autoconfNet program c0
            then JBool (fst probe && truthy (prop "ipv4" (snd probe)))
       else if is_nullish (prop "upnp" c0) then JBool true
       else prop "upnp" c0)).
  { unfold onLoading. fold c0. cbn [fst snd]. rewrite prop_upnp_flags.
    destruct (autoconfNet program c0).
    - rewrite networkReconfiguration_autoconf_upnp. fold probe. reflexivity.
    - reflexivity. }
  split; [exact Heq|]. rewrite Heq.
  destruct (is_true (prop "upnp" program)); [reflexivity|].
  destruct (is_true (prop "noupnp" program)); [reflexivity|].
  destruct (autoconfNet program c0); [reflexivity|].
  destruct (is_nullish (prop "upnp" c0)) eqn:Hn; [reflexivity|exact Hn].
Qed.

End LoadingMore.

(** ** Invariants of the waterfalls *)

Section Waterfalls.
Import Network Bma Spec Steps.
Variable K : Constants.
Variable E : Env.

Lemma waterfall_run (ops : list operation) (conf : gmap string jsval) :
  waterfall ops conf = fst (run ops (start conf)).
Proof. reflexivity. Qed.

Lemma run_app (ops1 ops2 : list operation) (st : wstate) :
  run (ops1 ++ ops2) st = run ops2 (run ops1 st).
Proof. unfold run. apply fold_left_app. Qed.

Lemma run_one (op : operation) (st : wstate) : run [op] st = op st.
Proof. reflexivity. Qed.

(** The local operations: what they store, and that they leave [upnp] and
    [remotehost] alone. *)
Lemma local_operations (autoconf : bool) (st : wstate) :
  let st' := run (getLocalNetworkOperations K E autoconf) st in
  prop "upnp" (fst st') = prop "upnp" (fst st)
  /\ prop "remotehost" (fst st') = prop "remotehost" (fst st)
  /\ prop "ipv4" (fst st')
     = (if autoconf then JStr (getBestLocalIPv4 (os E)) else operator E QIPv4)
  /\ prop "ipv6" (fst st')
     = (if autoconf then getBestLocalIPv6 (os E) else operator E QIPv6)
  /\ prop "remoteipv6" (fst st') = prop "ipv6" (fst st')
  /\ (autoconf = false -> prop "port" (fst st') = operator E QPort).
Proof.
  unfold getLocalNetworkOperations, plain, simpleInteger, simpleValue.
  unfold run. cbn [fold_left fst snd]. destruct autoconf; cbn [orb].
  - prop_simpl. repeat split; try reflexivity. discriminate.
  - destruct (negb (truthy (prop "ipv6" (<["ipv4":=operator E QIPv4]> (fst st)))));
      prop_simpl; repeat split; reflexivity.
Qed.

(** The remote operations touch [remoteipv4] and [remoteport] only. *)
Lemma remote_operations (k : string) (st : wstate) :
  "remoteipv4" ≠ k -> "remoteport" ≠ k ->
  prop k (fst (run (getRemoteNetworkOperations E) st))
  = prop k (fst st).
Proof.
  intros H1 H2.
  unfold getRemoteNetworkOperations, simpleInteger, simpleValue.
  unfold run. cbn [fold_left fst snd].
  destruct (negb (truthy (prop "ipv4" (fst st)))); cbn [fst snd].
  - repeat match goal with
           | |- context [if ?b then _ else _] => destruct b
           end; cbn [fst]; rewrite ?prop_insert_ne by assumption; reflexivity.
  - destruct (is_new (operator E QRemoteIPv4)); cbn [fst snd];
      repeat match goal with
             | |- context [if ?b then _ else _] => destruct b
             end; cbn [fst]; rewrite ?prop_insert_ne by assumption; reflexivity.
Qed.

(** The host name step, run last or before the mirroring step. *)
Lemma hostname_operation (autoconf : bool) (st : wstate) :
  let st' := run (getHostnameOperations E autoconf) st in
  (forall k, "remotehost" ≠ k -> prop k (fst st') = prop k (fst st))
  /\ (truthy (prop "ipv4" (fst st)) = false -> prop "remotehost" (fst st') = JNull).
Proof.
  unfold getHostnameOperations, plain, choose, simpleValue.
  unfold run. cbn [fold_left fst snd]. split.
  - intros k Hk.
    repeat match goal with
           | |- context [if ?b then _ else _] => destruct b
           end; rewrite ?prop_insert_ne by assumption; reflexivity.
  - intros ->. cbn [negb]. prop_simpl. reflexivity.
Qed.

(** The automatic mapping step. *)
Lemma useUPnP_operation (autoconf : bool) (st : wstate) :
  let st' := run (getUseUPnPOperations E autoconf) st in
  (forall k, "upnp" ≠ k -> prop k (fst st') = prop k (fst st))
  /\ prop "upnp" (fst st')
     = JBool (truthy (prop "ipv4" (fst st))
              && (autoconf || truthy (operator E QUseUPnP))).
Proof.
  unfold getUseUPnPOperations, plain, choose.
  unfold run. cbn [fold_left fst snd]. split.
  - intros k Hk.
    repeat match goal with
           | |- context [if ?b then _ else _] => destruct b
           end; rewrite ?prop_insert_ne by assumption; reflexivity.
  - destruct (truthy (prop "ipv4" (fst st))); cbn [negb andb]; [|prop_simpl; reflexivity].
    destruct autoconf; cbn [orb]; [prop_simpl; reflexivity|].
    destruct (truthy (operator E QUseUPnP)); prop_simpl; reflexivity.
Qed.

Lemma mirror_operation (st : wstate) :
  forall k, "remoteipv4" ≠ k -> "remoteipv6" ≠ k -> "remoteport" ≠ k ->
    prop k (fst (mirror_local st)) = prop k (fst st).
Proof.
  intros k H1 H2 H3. unfold mirror_local, plain. cbn [fst].
  rewrite !prop_insert_ne by assumption. reflexivity.
Qed.

(** The end of the two paths that go through the automatic mapping step. *)
Lemma upnp_then_hostname (autoconf : bool) (st : wstate) :
  let conf' := fst (run (getUseUPnPOperations E autoconf ++ getHostnameOperations E autoconf) st) in
  prop "ipv4" conf' = prop "ipv4" (fst st)
  /\ prop "upnp" conf'
     = JBool (truthy (prop "ipv4" (fst st)) && (autoconf || truthy (operator E QUseUPnP)))
  /\ (truthy (prop "ipv4" conf') = false -> prop "remotehost" conf' = JNull).
Proof.
  cbv zeta. rewrite run_app.
  destruct (useUPnP_operation autoconf st) as [Hu1 Hu2].
  destruct (hostname_operation autoconf (run (getUseUPnPOperations E autoconf) st))
    as [Hh1 Hh2].
  rewrite !Hh1 by (intros ?; discriminate).
  rewrite Hu1 by (intros ?; discriminate).
  split; [reflexivity|]. split; [exact Hu2|].
  intros Hv. apply Hh2. rewrite Hu1 by (intros ?; discriminate). exact Hv.
Qed.

Lemma mirror_path (a b : bool) (c0 : gmap string jsval) :
  let conf' := waterfall (getLocalNetworkOperations K E a ++ getHostnameOperations E b
                          ++ [mirror_local]) c0 in
  prop "upnp" conf' = prop "upnp" c0
  /\ (truthy (prop "ipv4" conf') = false -> prop "remotehost" conf' = JNull).
Proof.
  cbv zeta. rewrite waterfall_run, !run_app, run_one.
  destruct (local_operations a (start c0)) as (Hl1 & _).
  destruct (hostname_operation b (run (getLocalNetworkOperations K E a) (start c0)))
    as [Hh1 Hh2].
  rewrite !mirror_operation by (intros ?; discriminate).
  rewrite !Hh1 by (intros ?; discriminate). rewrite Hl1.
  split; [reflexivity|exact Hh2].
Qed.

Lemma manual_path (a b : bool) (c0 : gmap string jsval) :
  let conf' := waterfall (getLocalNetworkOperations K E a ++ getRemoteNetworkOperations E
                          ++ getHostnameOperations E b) c0 in
  prop "upnp" conf' = prop "upnp" c0
  /\ (truthy (prop "ipv4" conf') = false -> prop "remotehost" conf' = JNull).
Proof.
  cbv zeta. rewrite waterfall_run, !run_app.
  destruct (local_operations a (start c0)) as (Hl1 & _).
  set (st1 := run (getLocalNetworkOperations K E a) (start c0)) in *.
  destruct (hostname_operation b (run (getRemoteNetworkOperations E) st1)) as [Hh1 Hh2].
  rewrite !Hh1 by (intros ?; discriminate).
  rewrite !remote_operations by (intros ?; discriminate). rewrite Hl1.
  split; [reflexivity|].
  intros Hv. apply Hh2. rewrite remote_operations by (intros ?; discriminate). exact Hv.
Qed.

Lemma upnp_unavailable_invariants (autoconf : bool) (conf : gmap string jsval) :
  let conf' := upnp_unavailable K E autoconf conf in
  prop "upnp" conf' = JBool false
  /\ (truthy (prop "ipv4" conf') = false -> prop "remotehost" conf' = JNull).
Proof.
  cbv zeta. unfold upnp_unavailable, choose.
  assert (H0 : prop "upnp" (<["upnp" := JBool false]> conf) = JBool false)
    by apply prop_insert_eq.
  destruct autoconf; [|destruct (truthy (operator E QPublicServer))].
  - destruct (mirror_path true true (<["upnp" := JBool false]> conf)) as [H1 H2].
    split; [rewrite H1; exact H0|exact H2].
  - destruct (mirror_path false false (<["upnp" := JBool false]> conf)) as [H1 H2].
    split; [rewrite H1; exact H0|exact H2].
  - destruct (manual_path false false (<["upnp" := JBool false]> conf)) as [H1 H2].
    split; [rewrite H1; exact H0|exact H2].
Qed.

Lemma upnp_available_invariants (autoconf : bool) (uc conf : gmap string jsval) :
  let conf' := upnp_available K E autoconf uc conf in
  (exists b, prop "upnp" conf' = JBool b
             /\ (b = true -> truthy (prop "ipv4" conf') = true))
  /\ (truthy (prop "ipv4" conf') = false -> prop "remotehost" conf' = JNull).
Proof.
  cbv zeta. unfold upnp_available, choose.
  assert (Hend : forall st,
    let conf' := fst (run (getUseUPnPOperations E autoconf ++ getHostnameOperations E autoconf) st) in
    (exists b, prop "upnp" conf' = JBool b
               /\ (b = true -> truthy (prop "ipv4" conf') = true))
    /\ (truthy (prop "ipv4" conf') = false -> prop "remotehost" conf' = JNull)).
  { intros st. destruct (upnp_then_hostname autoconf st) as (H4 & Hu & Hh).
    cbv zeta. split; [|exact Hh]. eexists. split; [exact Hu|].
    rewrite H4. intros Hb. apply andb_true_iff in Hb as [Hb _]. exact Hb. }
  destruct autoconf; [rewrite waterfall_run; apply Hend|].
  destruct (truthy (operator E QKeepUPnP)); [rewrite waterfall_run; apply Hend|].
  rewrite waterfall_run, app_assoc, run_app. apply Hend.
Qed.

(** X10. In every mode and through every branch, [networkReconfiguration]
    leaves [upnp] a boolean, which is [true] only if the probe succeeded
    and a local IPv4 is set, and it leaves no remote host name when no
    local IPv4 is set. *)
Theorem networkReconfiguration_invariants :
  forall (conf : gmap string jsval) (autoconf : bool) (noupnp : jsval),
    let conf' := networkReconfiguration K E conf autoconf noupnp in
    (exists b, prop "upnp" conf' = JBool b
       /\ (b = true -> fst (upnpResolve K E noupnp) = true
                       /\ truthy (prop "ipv4" conf') = true))
    /\ (truthy (prop "ipv4" conf') = false -> prop "remotehost" conf' = JNull).
Proof.
  intros conf autoconf noupnp. cbv zeta. unfold networkReconfiguration.
  destruct (upnpResolve K E noupnp) as [[|] uc]; cbn [fst].
  - destruct (upnp_available_invariants autoconf uc (default_values K conf))
      as [(b & Hb & Hb4) Hh].
    split; [|exact Hh]. exists b. split; [exact Hb|]. intros Ht. split; [reflexivity|auto].
  - destruct (upnp_unavailable_invariants autoconf (default_values K conf)) as [Hu Hh].
    split; [|exact Hh]. exists false. split; [exact Hu|discriminate].
Qed.

(** X11. The interactive configuration ([networkConfiguration]) stores the
    operator's answers: [ipv4], [ipv6] (also as [remoteipv6]) and [port]
    are the values picked or entered.  [upnp] is asked only after a
    successful probe and is then [true] exactly when a local IPv4 was
    picked and the operator agreed; after a failed probe it is left as it
    was.  Without local IPv4 the remote host name is cleared. *)
Theorem networkConfiguration_stores_answers :
  forall conf : gmap string jsval,
    let conf' := networkConfiguration K E conf in
    let probed := fst (upnpResolve K E (JBool (negb (truthy (prop "upnp" conf))))) in
    prop "ipv4" conf' = operator E QIPv4
    /\ prop "ipv6" conf' = operator E QIPv6
    /\ prop "remoteipv6" conf' = operator E QIPv6
    /\ prop "port" conf' = operator E QPort
    /\ prop "upnp" conf'
       = (if probed
          then JBool (truthy (operator E QIPv4) && truthy (operator E QUseUPnP))
          else prop "upnp" conf)
    /\ (truthy (operator E QIPv4) = false -> prop "remotehost" conf' = JNull).
Proof.
  intros conf. cbv zeta. unfold networkConfiguration.
  destruct (upnpResolve K E (JBool (negb (truthy (prop "upnp" conf))))) as [ok uc].
  cbn [fst].
  destruct (local_operations false (start conf)) as (Hl1 & _ & Hl4 & Hl6 & Hlr6 & Hlp).
  specialize (Hlp eq_refl). cbn [fst start] in Hl1.
  set (st1 := run (getLocalNetworkOperations K E false) (start conf)) in *.
  assert (Hr : forall k, "remoteipv4" ≠ k -> "remoteport" ≠ k ->
            prop k (fst (run (getRemoteNetworkOperations E) st1)) = prop k (fst st1)).
  { intros k H1 H2. apply remote_operations; assumption. }
  set (st2 := run (getRemoteNetworkOperations E) st1) in *.
  destruct ok.
  - rewrite waterfall_run, !run_app. fold st1. fold st2.
    destruct (useUPnP_operation false st2) as [Hu1 Hu2].
    set (st3 := run (getUseUPnPOperations E false) st2) in *.
    destruct (hostname_operation false st3) as [Hh1 Hh2].
    rewrite !Hh1 by (intros ?; discriminate).
    rewrite !Hu1 by (intros ?; discriminate). rewrite Hu2.
    rewrite !Hr by (intros ?; discriminate).
    rewrite Hlr6, Hl4, Hl6, Hlp. cbn [orb].
    repeat split; try reflexivity.
    intros Hv. apply Hh2. rewrite Hu1 by (intros ?; discriminate).
    rewrite Hr by (intros ?; discriminate). rewrite Hl4. exact Hv.
  - rewrite waterfall_run, !run_app. fold st1. fold st2.
    destruct (hostname_operation false st2) as [Hh1 Hh2].
    rewrite !Hh1 by (intros ?; discriminate).
    rewrite !Hr by (intros ?; discriminate).
    rewrite Hlr6, Hl4, Hl6, Hlp, Hl1.
    repeat split; try reflexivity.
    intros Hv. apply Hh2. rewrite Hr by (intros ?; discriminate).
    rewrite Hl4. exact Hv.
Qed.

End Waterfalls.

(** ** More on the UPnP probe *)

Section ProbeMore.
Import Network Bma.
Variable K : Constants.

Lemma upnpConf_success_inv (noupnp : jsval) (r : unit_double) (gw : Gateway)
  (uc : gmap string jsval) :
  upnpConf K noupnp r gw = Ok uc ->
  exists publicIP privateIP : string,
    truthy noupnp = false
    /\ externalIp gw = Ok (JStr publicIP)
    /\ portMapping gw (getRandomPort K r ∅) (getRandomPort K r ∅) 120 = Ok tt
    /\ findGateway gw = Ok (JStr privateIP)
    /\ uc = <["ipv4" := if IPV4_REGEXP K privateIP then JStr privateIP else JNull]>
            (<["port" := getRandomPort K r ∅]>
            (<["remoteport" := getRandomPort K r ∅]>
            (<["remoteipv4" := if IPV4_REGEXP K publicIP then JStr publicIP else JNull]> ∅))).
Proof.
  unfold upnpConf. destruct (truthy noupnp); [discriminate|].
  destruct (externalIp gw) as [publicIP|]; [|discriminate]. simpl.
  destruct (portMapping gw _ _ 120) as [[]|] eqn:Hmap; [|discriminate]. simpl.
  destruct (findGateway gw) as [privateIP|]; [|discriminate]. simpl.
  destruct publicIP as [| | | | |pub]; try discriminate. simpl.
  destruct privateIP as [| | | | |priv]; try discriminate. simpl.
  intros [= <-]. exists pub, priv. repeat split; try reflexivity; try exact Hmap.
Qed.

(** X12. The probe returns a configuration exactly when UPnP is not
    disabled and the gateway answers the three requests, the two addresses
    being strings.  What it returns then has the four fields [remoteipv4],
    [remoteport], [port], [ipv4] and no other; its two ports are the same
    number, between [PORT_START] and 65535, for which the gateway accepted a
    mapping of 120 seconds; each address is either [null] or the string
    answered by the gateway, matching the IPv4 pattern. *)
Theorem upnpConf_success_invariants :
  forall (noupnp : jsval) (r : unit_double) (gw : Gateway),
    ((exists uc, upnpConf K noupnp r gw = Ok uc) <->
       truthy noupnp = false
       /\ (exists pub, externalIp gw = Ok (JStr pub))
       /\ portMapping gw (getRandomPort K r ∅) (getRandomPort K r ∅) 120 = Ok tt
       /\ (exists priv, findGateway gw = Ok (JStr priv)))
    /\ (forall uc, upnpConf K noupnp r gw = Ok uc ->
          dom uc = {[ "remoteipv4"; "remoteport"; "port"; "ipv4" ]}
          /\ prop "port" uc = prop "remoteport" uc
          /\ (prop "remoteipv4" uc = JNull
              \/ exists s, prop "remoteipv4" uc = JStr s /\ IPV4_REGEXP K s = true
                           /\ externalIp gw = Ok (JStr s))
          /\ (prop "ipv4" uc = JNull
              \/ exists s, prop "ipv4" uc = JStr s /\ IPV4_REGEXP K s = true
                           /\ findGateway gw = Ok (JStr s))
          /\ (unit_double_ok r -> 0 <= PORT_START K <= 65535 ->
              exists p, prop "port" uc = JNum p /\ PORT_START K <= p <= 65535
                        /\ portMapping gw (JNum p) (JNum p) 120 = Ok tt)).
Proof.
  intros noupnp r gw. split.
  - split.
    + intros [uc Huc].
      destruct (upnpConf_success_inv noupnp r gw uc Huc)
        as (pub & priv & H1 & H2 & H3 & H4 & _). eauto 8.
    + intros (Hno & [pub Hpub] & Hmap & [priv Hpriv]).
      unfold upnpConf. rewrite Hno, Hpub. simpl. rewrite Hmap. simpl.
      rewrite Hpriv. simpl. eexists. reflexivity.
  - intros uc Huc.
    destruct (upnpConf_success_inv noupnp r gw uc Huc)
      as (pub & priv & H1 & H2 & H3 & H4 & ->).
    split; [rewrite !dom_insert_L, dom_empty_L; set_solver|].
    split; [prop_simpl; reflexivity|]. prop_simpl.
    split; [destruct (IPV4_REGEXP K pub) eqn:Hp; [right; eauto|left; reflexivity]|].
    split; [destruct (IPV4_REGEXP K priv) eqn:Hp; [right; eauto|left; reflexivity]|].
    intros Hr HK.
    destruct (getRandomPort_drawn K r ∅ Hr HK ltac:(rewrite prop_empty; reflexivity))
      as (p & Hp & Hrange).
    exists p. rewrite <- Hp. auto.
Qed.

End ProbeMore.

Lemma upnpConf_success_invariants_witness :
  exists uc, Network.upnpConf Samples.K0 JUndefined Samples.draw_20900 Samples.gateway_up = Ok uc
    /\ dom uc = {[ "remoteipv4"; "remoteport"; "port"; "ipv4" ]}
    /\ prop "port" uc = prop "remoteport" uc.
Proof.
  destruct (upnpConf_success_invariants Samples.K0 JUndefined Samples.draw_20900
              Samples.gateway_up) as [[_ Hex] Hinv].
  destruct Hex as [uc Huc].
  { split; [reflexivity|]. split; [eexists; reflexivity|].
    split; [reflexivity|eexists; reflexivity]. }
  destruct (Hinv uc Huc) as (H1 & H2 & _).
  exists uc. auto.
Defined.

Lemma onLoading_complete_configuration_witness :
  Bma.autoconfNet ∅ (Bma.default_remotes (Bma.apply_options ∅ ServiceSamples.conf_complete))
  = false
  /\ snd (Bma.onLoading Samples.K0 Samples.env_none ServiceSamples.conf_complete ∅) = Ok tt.
Proof.
  assert (H : Bma.autoconfNet ∅
                (Bma.default_remotes (Bma.apply_options ∅ ServiceSamples.conf_complete))
              = false) by (vm_compute; reflexivity).
  split; [exact H|].
  exact (proj1 (onLoading_complete_configuration Samples.K0 Samples.env_none
                  ServiceSamples.conf_complete ∅ H)).
Defined.

Lemma onLoading_autoconf_without_gateway_witness :
  fst (Bma.upnpResolve Samples.K0 Samples.env_down (prop "noupnp" ∅)) = false
  /\ snd (Bma.onLoading Samples.K0 Samples.env_down ∅ ∅) = Ok tt.
Proof.
  assert (Hauto : Bma.autoconfNet ∅ (Bma.default_remotes (Bma.apply_options ∅ ∅)) = true)
    by (vm_compute; reflexivity).
  assert (H : fst (Bma.upnpResolve Samples.K0 Samples.env_down (prop "noupnp" ∅)) = false)
    by (vm_compute; reflexivity).
  assert (Hdef : DEFAULT_PORT Samples.K0 <> 0) by (simpl; lia).
  split; [exact H|].
  etransitivity;
    [exact (onLoading_autoconf_without_gateway Samples.K0 Samples.env_down ∅ ∅ Hauto H Hdef)|].
  vm_compute. reflexivity.
Defined.

Lemma onLoading_autoconf_behind_gateway_witness :
  fst (Bma.upnpResolve Samples.K0 Samples.env_odd (prop "noupnp" ∅)) = true
  /\ snd (Bma.onLoading Samples.K0 Samples.env_odd ∅ ∅) = Ok tt.
Proof.
  assert (Hauto : Bma.autoconfNet ∅ (Bma.default_remotes (Bma.apply_options ∅ ∅)) = true)
    by (vm_compute; reflexivity).
  assert (Hres : Bma.upnpResolve Samples.K0 Samples.env_odd (prop "noupnp" ∅)
                 = (true, snd (Bma.upnpResolve Samples.K0 Samples.env_odd (prop "noupnp" ∅))))
    by (vm_compute; reflexivity).
  assert (HK : 1 <= PORT_START Samples.K0 <= 65535) by (simpl; lia).
  split; [vm_compute; reflexivity|].
  etransitivity;
    [exact (onLoading_autoconf_behind_gateway Samples.K0 Samples.env_odd ∅ ∅ _
              Hauto Hres unit_double_ok_sample HK)|].
  vm_compute. reflexivity.
Defined.

Section GatewayAddress.
Import Network Upnp Texts.

Lemma string_app_cons (c : ascii) (a b : string) :
  (String c a ++ b)%string = String c (a ++ b)%string.
Proof. reflexivity. Qed.

Lemma string_app_nil (b : string) : ("" ++ b)%string = b.
Proof. reflexivity. Qed.

Lemma string_app_assoc (a b c : string) :
  ((a ++ b) ++ c)%string = (a ++ b ++ c)%string.
Proof.
  induction a as [|x a IH]; [reflexivity|].
  rewrite !string_app_cons, IH. reflexivity.
Qed.

Lemma string_drop_app (d r : string) : string_drop (String.length d) (d ++ r)%string = r.
Proof.
  induction d as [|c d IH]; [destruct r; reflexivity|].
  rewrite string_app_cons. exact IH.
Qed.

Lemma string_take_app (d r : string) : string_take (String.length d) (d ++ r)%string = d.
Proof.
  induction d as [|c d IH]; [destruct r; reflexivity|].
  rewrite string_app_cons. simpl. f_equal. exact IH.
Qed.

Lemma string_length_app (a b : string) :
  String.length (a ++ b)%string = (String.length a + String.length b)%nat.
Proof.
  induction a as [|c a IH]; [reflexivity|].
  rewrite string_app_cons. simpl. f_equal. exact IH.
Qed.

Lemma digit_run_app (d : string) (c : ascii) (r : string) :
  Spec.all_digits d = true -> is_digit c = false ->
  digit_run (d ++ String c r)%string = String.length d.
Proof.
  intros Hd Hc. induction d as [|x d IH].
  - rewrite string_app_nil. simpl. rewrite Hc. reflexivity.
  - rewrite string_app_cons. simpl in *. apply andb_prop in Hd as [Hx Hd].
    rewrite Hx, (IH Hd). reflexivity.
Qed.

Lemma number_length (d : string) :
  number d = true -> Spec.all_digits d = true /\ exists k, String.length d = S k.
Proof.
  unfold number. intros H. apply andb_prop in H as [Hne Hd]. split; [exact Hd|].
  destruct d; [discriminate|]. simpl. eauto.
Qed.

Lemma match_number (rest : list item) (d : string) (c : ascii) (r : string) (m : nat) :
  number d = true -> is_digit c = false ->
  match_items rest (String c r) = Some m ->
  match_items (IDigits :: rest) (d ++ String c r)%string = Some (String.length d + m)%nat.
Proof.
  intros Hn Hc Hm. apply number_length in Hn as [Hd [k Hk]].
  cbn [match_items]. rewrite (digit_run_app d c r Hd Hc), Hk, <- Hk.
  rewrite string_drop_app, Hm. reflexivity.
Qed.


Lemma string_drop_drop (a b : nat) (s : string) :
  string_drop a (string_drop b s) = string_drop (b + a) s.
Proof.
  revert s. induction b as [|b IH]; intros s; [reflexivity|].
  destruct s as [|c s]; simpl.
  - destruct a; reflexivity.
  - apply IH.
Qed.

Lemma string_take_drop (n : nat) (s : string) :
  s = (string_take n s ++ string_drop n s)%string.
Proof.
  revert s. induction n as [|n IH]; intros s; [reflexivity|].
  destruct s as [|c s]; [reflexivity|].
  change (String c s = String c (string_take n s ++ string_drop n s)%string).
  f_equal. apply IH.
Qed.

Lemma string_take_length (m : nat) : forall (s : string) (c : ascii) (r : string),
  string_drop m s = String c r -> String.length (string_take m s) = m.
Proof.
  induction m as [|m IH]; intros s c r H; [reflexivity|].
  destruct s as [|x s]; [discriminate|]. simpl in *. f_equal. exact (IH s c r H).
Qed.

Lemma digits_try (rest : list item) (s : string) (k n : nat) :
  (fix try (k : nat) : option nat :=
     match k with
     | O => None
     | S k' =>
         match match_items rest (string_drop k s) with
         | Some n => Some (k + n)%nat
         | None => try k'
         end
     end) k = Some n ->
  exists k' m, (1 <= k' <= k)%nat /\ match_items rest (string_drop k' s) = Some m
               /\ n = (k' + m)%nat.
Proof.
  induction k as [|k IH]; [discriminate|].
  destruct (match_items rest (string_drop (S k) s)) as [m|] eqn:Hm.
  - intros [= <-]. exists (S k), m. repeat split; [lia|lia|exact Hm].
  - intros H. destruct (IH H) as (k' & m & Hk & Hm' & ->).
    exists k', m. repeat split; [lia|lia|exact Hm'].
Qed.

Lemma match_items_last (c : ascii) (items : list item) : forall (s : string) (n : nat),
  match_items (items ++ [IChar c]) s = Some n ->
  exists m, n = S m /\ (length items <= m)%nat
            /\ string_drop m s = String c (string_drop (S m) s).
Proof.
  induction items as [|it items IH]; intros s n H.
  - simpl in H. destruct s as [|c' s]; [discriminate|].
    destruct (Ascii.eqb_spec c' c) as [->|]; [|discriminate].
    injection H as <-. exists 0%nat. repeat split; simpl; lia.
  - destruct it.
    + apply digits_try in H as (k' & m & Hk & Hm & ->).
      apply IH in Hm as (m' & -> & Hlen & Hd).
      rewrite !string_drop_drop in Hd.
      exists (k' + m')%nat. repeat split; [lia|simpl; lia|].
      rewrite Hd. f_equal. f_equal. lia.
    + simpl in H. destruct s as [|c' s]; [discriminate|].
      destruct (is_line_break c'); [discriminate|].
      destruct (match_items (items ++ [IChar c]) s) as [n'|] eqn:Hn; [|discriminate].
      injection H as <-. apply IH in Hn as (m' & -> & Hlen & Hd).
      exists (S m'). repeat split; [simpl; lia|exact Hd].
    + simpl in H. destruct s as [|c' s]; [discriminate|].
      destruct (Ascii.eqb c' c0); [|discriminate].
      destruct (match_items (items ++ [IChar c]) s) as [n'|] eqn:Hn; [|discriminate].
      injection H as <-. apply IH in Hn as (m' & -> & Hlen & Hd).
      exists (S m'). repeat split; [simpl; lia|exact Hd].
Qed.

Lemma first_group_sound (desc a : string) :
  first_group desc = Some a ->
  exists pre post, desc = (pre ++ a ++ ":" ++ post)%string /\ (7 <= String.length a)%nat.
Proof.
  induction desc as [|c desc IH].
  - discriminate.
  - intros H. unfold first_group in H. fold first_group in H.
    destruct (match_items gateway_pattern (String c desc)) as [n|] eqn:Hn.
    + injection H as <-.
      change gateway_pattern
        with ([IDigits; IAny; IDigits; IAny; IDigits; IAny; IDigits] ++ [IChar ":"]) in Hn.
      apply match_items_last in Hn as (m & -> & Hlen & Hd).
      exists "", (string_drop (S m) (String c desc)).
      replace (S m - 1)%nat with m by lia. split.
      * rewrite (string_take_drop m (String c desc)) at 1. rewrite Hd. reflexivity.
      * rewrite (string_take_length m (String c desc) _ _ Hd). exact Hlen.
    + destruct (IH H) as (pre & post & -> & Hlen).
      exists (String c pre), post. split; [reflexivity|exact Hlen].
Qed.

Lemma match_dotted (d1 d2 d3 d4 post : string) :
  number d1 = true -> number d2 = true -> number d3 = true -> number d4 = true ->
  match_items gateway_pattern (dotted d1 d2 d3 d4 ++ ":" ++ post)%string
  = Some (S (String.length (dotted d1 d2 d3 d4))).
Proof.
  intros H1 H2 H3 H4. unfold dotted, gateway_pattern.
  rewrite !string_app_assoc.
  rewrite !string_app_cons, !string_app_nil.
  assert (Hcolon : match_items [IChar ":"] (String ":" post) = Some 1%nat) by reflexivity.
  pose proof (match_number _ d4 ":" post _ H4 eq_refl Hcolon) as M4.
  assert (A3 : match_items (IAny :: IDigits :: [IChar ":"]) (String "." (d4 ++ String ":" post))
               = Some (S (String.length d4 + 1))).
  { cbn [match_items] in *. cbn [is_line_break nat_of_ascii]. simpl is_line_break.
    rewrite M4. reflexivity. }
  pose proof (match_number _ d3 "." _ _ H3 eq_refl A3) as M3.
  assert (A2 : match_items (IAny :: IDigits :: IAny :: IDigits :: [IChar ":"])
                 (String "." (d3 ++ String "." (d4 ++ String ":" post)))
               = Some (S (String.length d3 + S (String.length d4 + 1)))).
  { cbn [match_items] in *. simpl is_line_break. rewrite M3. reflexivity. }
  pose proof (match_number _ d2 "." _ _ H2 eq_refl A2) as M2.
  assert (A1 : match_items (IAny :: IDigits :: IAny :: IDigits :: IAny :: IDigits :: [IChar ":"])
                 (String "." (d2 ++ String "." (d3 ++ String "." (d4 ++ String ":" post))))
               = Some (S (String.length d2 + S (String.length d3 + S (String.length d4 + 1))))).
  { cbn [match_items] in *. simpl is_line_break. rewrite M2. reflexivity. }
  rewrite (match_number _ d1 "." _ _ H1 eq_refl A1).
  f_equal. repeat (rewrite string_length_app; cbn [String.length]). lia.
Qed.

Lemma first_group_skip (pre s : string) :
  digit_free pre = true -> first_group (pre ++ s)%string = first_group s.
Proof.
  intros Hpre. induction pre as [|c pre IH]; [reflexivity|].
  simpl in Hpre. apply andb_prop in Hpre as [Hc Hpre].
  rewrite string_app_cons. unfold first_group at 1. fold first_group.
  unfold gateway_pattern at 1. cbn [match_items digit_run].
  apply negb_true_iff in Hc. rewrite Hc. exact (IH Hpre).
Qed.

Lemma first_group_dotted (pre d1 d2 d3 d4 post : string) :
  digit_free pre = true ->
  number d1 = true -> number d2 = true -> number d3 = true -> number d4 = true ->
  first_group (pre ++ dotted d1 d2 d3 d4 ++ ":" ++ post)%string
  = Some (dotted d1 d2 d3 d4).
Proof.
  intros Hpre H1 H2 H3 H4. rewrite (first_group_skip _ _ Hpre).
  pose proof (match_dotted d1 d2 d3 d4 post H1 H2 H3 H4) as Hm.
  destruct (dotted d1 d2 d3 d4 ++ ":" ++ post)%string as [|c s] eqn:Hs.
  - discriminate.
  - unfold first_group. fold first_group. rewrite Hm. f_equal.
    rewrite <- Hs. replace (S (String.length (dotted d1 d2 d3 d4)) - 1)%nat
      with (String.length (dotted d1 d2 d3 d4)) by lia.
    apply string_take_app.
Qed.

Lemma findGateway_address_first_group (desc : string) :
  findGateway_address (Ok (Some desc)) = first_group desc.
Proof. destruct desc; reflexivity. Qed.

Lemma findGateway_address_nonempty (answer : result (option string)) (g : string) :
  findGateway_address answer = Some g -> g <> "".
Proof.
  destruct answer as [[desc|]|]; try discriminate.
  rewrite findGateway_address_first_group. intros Hg.
  apply first_group_sound in Hg as (_ & _ & _ & Hlen).
  intros ->. simpl in Hlen. lia.
Qed.

(** X13. What [findGateway] returns is read in the description of the
    gateway: a text of at least seven characters that stands in the
    description just before a colon; without description, or when the
    gateway client fails, it returns [null].  From a description whose
    first digits are those of a dotted address followed by a colon, such as
    the URL of the gateway, it returns that address, without the port. *)
Theorem findGateway_reads_address :
  (forall (answer : result (option string)) (a : string),
      findGateway_address answer = Some a ->
      exists desc pre post,
        answer = Ok (Some desc)
        /\ desc = (pre ++ a ++ ":" ++ post)%string
        /\ (7 <= String.length a)%nat)
  /\ (forall pre d1 d2 d3 d4 post : string,
        digit_free pre = true ->
        number d1 = true -> number d2 = true -> number d3 = true -> number d4 = true ->
        findGateway_address (Ok (Some (pre ++ dotted d1 d2 d3 d4 ++ ":" ++ post)%string))
        = Some (dotted d1 d2 d3 d4))
  /\ (forall e, findGateway_address (Throw e) = None)
  /\ findGateway_address (Ok None) = None.
Proof.
  split; [|split; [|split; reflexivity]].
  - intros answer a Ha. destruct answer as [[desc|]|]; try discriminate.
    rewrite findGateway_address_first_group in Ha.
    destruct (first_group_sound desc a Ha) as (pre & post & Hd & Hlen).
    exists desc, pre, post. auto.
  - intros pre d1 d2 d3 d4 post Hpre H1 H2 H3 H4.
    rewrite findGateway_address_first_group.
    apply first_group_dotted; assumption.
Qed.

End GatewayAddress.

Lemma findGateway_reads_address_witness :
  Upnp.findGateway_address (Ok (Some "http://192.168.1.1:5000/rootDesc.xml"))
  = Some "192.168.1.1".
Proof.
  exact (proj1 (proj2 findGateway_reads_address)
           "http://" "192" "168" "1" "1" "5000/rootDesc.xml"
           eq_refl eq_refl eq_refl eq_refl eq_refl).
Defined.


Section ServiceMore.
Import Network Upnp Service.
Variable U : UpnpConstants.

Lemma stop_renewal_clears (st : bmapi_state) :
  active (renewals st) ⊆ current_timer st ->
  active (stop_renewal st) = ∅ /\ next_timer (stop_renewal st) = next_timer (renewals st).
Proof.
  unfold current_timer, stop_renewal, stopRegular.
  assert (Hempty : forall X Y : gset nat, X ⊆ Y -> X ∖ Y = ∅).
  { intros X Y HXY. apply leibniz_equiv, elem_of_equiv_empty. intros x Hx.
    apply elem_of_difference in Hx as [Hx1 Hx2]. exact (Hx2 (HXY x Hx1)). }
  assert (Hnone : forall X : gset nat, X ⊆ ∅ -> X = ∅).
  { intros X HX. apply leibniz_equiv, elem_of_equiv_empty. intros x Hx.
    exact (not_elem_of_empty x (HX x Hx)). }
  destruct (upnpAPI st) as [[[id|]]|]; simpl; intros Hsub; split; auto.
Qed.

Lemma startService_state (inp : start_inputs) (st : bmapi_state) :
  active (renewals st) ⊆ current_timer st ->
  let st' := fst (startService U inp st) in
  match bma_result inp with
  | Throw _ => st' = st
  | Ok _ =>
      if truthy (conf_upnp inp) then
        match upnp U (gateway inp) (conf_port inp) (conf_remoteport inp) with
        | Ok _ => active (renewals st') = {[ next_timer (renewals st) ]}
                  /\ current_timer st' = {[ next_timer (renewals st) ]}
        | Throw _ => active (renewals st') = ∅
        end
      else active (renewals st') = ∅
  end.
Proof.
  intros Hinv. destruct (stop_renewal_clears st Hinv) as [Hact Hnext].
  unfold startService. fold (stop_renewal st).
  destruct (bma_result inp) as [a|e]; [|reflexivity].
  destruct (truthy (conf_upnp inp)); [|exact Hact].
  destruct (upnp U (gateway inp) (conf_port inp) (conf_remoteport inp)) as [sv|e] eqn:Hup;
    [|exact Hact].
  assert (Hsv : interval sv = None).
  { unfold upnp in Hup. destruct (openPort _ _ _ _); [injection Hup as <-; reflexivity|].
    destruct (externalIp _); [injection Hup as <-; reflexivity|].
    destruct (String.eqb _ _); discriminate. }
  unfold startRegular, stopRegular, setInterval. rewrite Hsv. simpl.
  unfold current_timer. simpl. rewrite Hact, Hnext.
  split; [apply (right_id_L ∅ (∪))|reflexivity].
Qed.

Lemma startService_inv (inp : start_inputs) (st : bmapi_state) :
  active (renewals st) ⊆ current_timer st ->
  active (renewals (fst (startService U inp st))) ⊆ current_timer (fst (startService U inp st)).
Proof.
  intros Hinv. pose proof (startService_state inp st Hinv) as Hst. simpl in Hst.
  destruct (bma_result inp); [|rewrite Hst; exact Hinv].
  destruct (truthy (conf_upnp inp)); [|rewrite Hst; apply empty_subseteq].
  destruct (upnp _ _ _ _); [destruct Hst as [-> ->]; reflexivity|rewrite Hst; apply empty_subseteq].
Qed.

Lemma close_from_ok_closed (l : list server) : forall i l' evs,
  closeConnections_from i l = (l', evs, Ok tt) ->
  Forall (fun s => listening s = false) l'.
Proof.
  induction l as [|s l IH]; intros i l' evs H; simpl in H.
  - injection H as <- <-. constructor.
  - destruct (listening s) eqn:Hlis.
    + simpl in H. destruct (errorPropagates s); [|discriminate].
      destruct (closeConnections_from (S i) l) as [[rest' evs'] r] eqn:Hrest.
      injection H as <- <- ->. constructor; [reflexivity|exact (IH _ _ _ Hrest)].
    + destruct (closeConnections_from (S i) l) as [[rest' evs'] r] eqn:Hrest.
      injection H as <- <- ->. constructor; [exact Hlis|exact (IH _ _ _ Hrest)].
Qed.

Lemma stopService_state (st st' : bmapi_state) (r : result unit) :
  active (renewals st) ⊆ current_timer st ->
  stopService st = (st', r) ->
  upnpAPI st' = upnpAPI st
  /\ match r with
     | Ok _ => active (renewals st') = ∅
               /\ forall a, bmapi st' = Some a -> Forall (fun s => listening s = false) (servers a)
     | Throw _ => renewals st' = renewals st
     end.
Proof.
  intros Hinv. destruct (stop_renewal_clears st Hinv) as [Hact Hnext].
  unfold stopService. fold (stop_renewal st).
  destruct (bmapi st) as [a|].
  - unfold closeConnections.
    destruct (closeConnections_from 0 (servers a)) as [[l evs] [[]|e]] eqn:Hclose;
      intros [= <- <-]; simpl; split; try reflexivity.
    split; [exact Hact|]. intros a' [= <-]. simpl.
    exact (close_from_ok_closed _ _ _ _ Hclose).
  - intros [= <- <-]. simpl. split; [reflexivity|]. split; [exact Hact|discriminate].
Qed.

Lemma stopService_inv (st : bmapi_state) :
  active (renewals st) ⊆ current_timer st ->
  active (renewals (fst (stopService st))) ⊆ current_timer (fst (stopService st)).
Proof.
  intros Hinv. destruct (stopService st) as [st' r] eqn:Hstop.
  destruct (stopService_state st st' r Hinv Hstop) as [Hup H]. simpl.
  unfold current_timer in *. rewrite Hup.
  destruct r; [destruct H as [-> _]; apply empty_subseteq|rewrite H; exact Hinv].
Qed.

Lemma service_reachable_inv (st : bmapi_state) :
  service_reachable U st -> active (renewals st) ⊆ current_timer st.
Proof.
  induction 1 as [|st st' _ IH Hstep]; [set_solver|].
  destruct Hstep.
  - apply startService_inv, IH.
  - apply stopService_inv, IH.
  - exact IH.
Qed.

Lemma current_timer_size (st : bmapi_state) : (size (current_timer st) <= 1)%nat.
Proof.
  unfold current_timer. destruct (upnpAPI st) as [[[id|]]|]; cbn [interval];
    rewrite ?size_singleton, ?size_empty; lia.
Qed.



Lemma whitelist_gateway_found (g : string) (whitelist : list string) :
  g <> "" ->
  whitelist_gateway (Some g) whitelist
  = if decide (g ∈ whitelist) then whitelist else whitelist ++ [g].
Proof.
  intros Hg. unfold whitelist_gateway.
  destruct (String.eqb_spec g "") as [->|_]; [contradiction|].
  destruct (existsb (String.eqb g) whitelist) eqn:Hex.
  - apply existsb_eqb_elem in Hex. rewrite decide_True by exact Hex. reflexivity.
  - rewrite decide_False; [reflexivity|].
    intros Hin. apply existsb_eqb_elem in Hin. congruence.
Qed.

Lemma startService_result (inp : start_inputs) (st : bmapi_state) :
  (forall e, bma_result inp = Throw e -> startService U inp st = (st, Throw e))
  /\ (forall a, bma_result inp = Ok a ->
        exists a',
          snd (startService U inp st) = Ok tt
          /\ bmapi (fst (startService U inp st)) = Some a'
          /\ servers a' = fst (openConnections (bind_ok inp) (servers a))
          /\ (ddos_whitelist a' = ddos_whitelist a
              \/ exists g, findGateway_address (gateway_answer inp) = Some g
                           /\ (g ∉ ddos_whitelist a)
                           /\ ddos_whitelist a' = ddos_whitelist a ++ [g]
                           /\ truthy (conf_upnp inp) = true)
          /\ (forall sv g,
                truthy (conf_upnp inp) = true ->
                upnp U (gateway inp) (conf_port inp) (conf_remoteport inp) = Ok sv ->
                findGateway_address (gateway_answer inp) = Some g ->
                g ∈ ddos_whitelist a')
          /\ (NoDup (ddos_whitelist a) -> NoDup (ddos_whitelist a'))).
Proof.
  split.
  - intros e He. unfold startService. rewrite He. reflexivity.
  - intros a Ha. unfold startService. rewrite Ha.
    destruct (truthy (conf_upnp inp)) eqn:Hupnp.
    2:{ eexists. simpl. repeat split; [left; reflexivity|discriminate|auto]. }
    destruct (upnp U (gateway inp) (conf_port inp) (conf_remoteport inp)) as [sv|e] eqn:Hup.
    2:{ eexists. simpl. repeat split; [left; reflexivity|discriminate|auto]. }
    destruct (startRegular sv _) as [sv' t'].
    eexists. simpl. split; [reflexivity|]. split; [reflexivity|]. split; [reflexivity|].
    destruct (findGateway_address (gateway_answer inp)) as [g|] eqn:Hg.
    2:{ split; [left; reflexivity|]. split; [discriminate|auto]. }
    rewrite (whitelist_gateway_found g _ (findGateway_address_nonempty _ g Hg)).
    destruct (decide (g ∈ ddos_whitelist a)) as [Hin|Hout].
    + split; [left; reflexivity|]. split; [|auto].
      intros _ g' _ _ [= <-]. exact Hin.
    + split; [right; exists g; auto|]. split.
      * intros _ g' _ _ [= <-]. apply elem_of_app. right. apply list_elem_of_singleton.
        reflexivity.
      * intros Hnd. apply NoDup_app. split; [exact Hnd|]. split.
        -- intros x Hx Hx'. apply list_elem_of_singleton in Hx'. subst. exact (Hout Hx).
        -- apply NoDup_singleton.
Qed.



End ServiceMore.

Lemma started_reachable : Service.service_reachable ServiceSamples.U0 ServiceSamples.started.
Proof.
  exact (Service.service_next _ _ _ (Service.service_created _)
           (Service.step_start _ ServiceSamples.inputs0 Service.created)).
Defined.



